(** * coc-spring-initializr: the dependency selector, the wizard steps
      and the pom.xml patcher, embedded from the TypeScript sources.

    - [DependencyManager]  src/DependencyManager.ts
    - [Validation]         Utils/index.ts (groupIdValidation and friends)
    - [Wizard]             handler/utils.ts (createPickBox, createInputBox)
                           and the Specify*Step classes
    - [Xml]                Utils/xml/index.ts (updatePom)

    JavaScript strings are modelled by [string], read as ASCII text, on
    which lengths and offsets are those of JavaScript; an optional or
    undefined value by [option]; an array by [list], [push] appending at
    the end; a plain object used as a map by the finite map of the
    entries stored in it. *)

From Stdlib Require Import ZArith String Ascii List Lia Bool.
From stdpp Require Import base list strings gmap pretty.

Local Open Scope string_scope.
Local Open Scope list_scope.
Local Open Scope Z_scope.

(** ** JavaScript values used by every module *)

(** Truthiness of a [string | undefined]: defined and not empty. *)
Definition truthy (v : option string) : bool :=
  match v with
  | Some s => negb (String.eqb s "")
  | None => false
  end.

(** [a || b] on [string | undefined]. *)
Definition js_or (a b : option string) : option string :=
  if truthy a then a else b.

(** [Array.prototype.indexOf] on an array of strings: the first index
    holding [x], or [-1]. *)
Fixpoint indexOf (l : list string) (x : string) : Z :=
  match l with
  | [] => -1
  | y :: l' =>
      if String.eqb y x then 0
      else let i := indexOf l' x in if i <? 0 then -1 else i + 1
  end.

(** [Array.prototype.join]. *)
Fixpoint join (sep : string) (l : list string) : string :=
  match l with
  | [] => ""
  | [x] => x
  | x :: l' => x +:+ sep +:+ join sep l'
  end.

(** [Array.prototype.push] and [Array.prototype.pop]. *)
Definition push {A} (l : list A) (x : A) : list A := l ++ [x].

Definition pop {A} (l : list A) : option A * list A :=
  (last l, removelast l).

(** ** Exceptions and mutable state

    An async function that may throw and that mutates objects it was
    handed is a state transformer returning [Ok] or [Throw]; what was
    mutated before a throw stays mutated. *)

Inductive Error :=
| OperationCanceledError (message : string)
| UserError (message : string).

Inductive Result (A : Type) :=
| Ok (a : A)
| Throw (e : Error).
Arguments Ok {A} a.
Arguments Throw {A} e.

Definition M (S A : Type) : Type := S → Result A * S.

Definition ret {S A} (a : A) : M S A := λ s, (Ok a, s).
Definition throw {S A} (e : Error) : M S A := λ s, (Throw e, s).
Definition bind {S A B} (c : M S A) (k : A → M S B) : M S B :=
  λ s, match c s with
       | (Ok a, s') => k a s'
       | (Throw e, s') => (Throw e, s')
       end.
Definition get {S} : M S S := λ s, (Ok s, s).
Definition modify {S} (f : S → S) : M S unit := λ s, (Ok tt, f s).

Notation "'do' x <- c ; k" := (bind c (λ x, k))
  (at level 10, x pattern, c at level 100, k at level 200, only parsing).

(** ** The dependency selector (src/DependencyManager.ts) *)

Module DependencyManager.

(** [IDependency] of ./model, with the fields the class reads. *)
Record IDependency := {
  id : string;
  name : string;
  group : string
}.

(** [QuickPickItem & IDependenciesItem]. *)
Record Item := {
  description : option string;
  item_id : string;
  itemType : string;
  label : string
}.

Record t := {
  bootVersion : string;
  lastselected : option string;
  dependencies : list IDependency;
  dict : gmap string IDependency;
  selectedIds : list string
}.

Definition create (bootVersion : string) : t :=
  {| bootVersion := bootVersion; lastselected := None;
     dependencies := []; dict := ∅; selectedIds := [] |}.

(** The index [dict] is a plain object, read here as the finite map of
    the entries stored in it. A plain object also answers, with a value
    that was never stored, to the names of the properties it inherits
    from Object.prototype, listed here, and a store under the name
    __proto__ replaces its prototype: the finite map and the object
    agree on every other key, as long as nothing was stored under that
    name. *)
Definition inherited : list string :=
  ["constructor"; "hasOwnProperty"; "isPrototypeOf"; "propertyIsEnumerable";
   "toLocaleString"; "toString"; "valueOf"; "__proto__";
   "__defineGetter__"; "__defineSetter__"; "__lookupGetter__";
   "__lookupSetter__"].

(** [toggleDependency] on the [selectedIds] array. *)
Definition toggle (x : string) (selectedIds : list string) : list string :=
  let index := indexOf selectedIds x in
  if 0 <=? index
  then filter (λ y, y ≠ x) selectedIds
  else push selectedIds x.

Definition toggleDependency (x : string) (m : t) : t :=
  {| bootVersion := bootVersion m; lastselected := lastselected m;
     dependencies := dependencies m; dict := dict m;
     selectedIds := toggle x (selectedIds m) |}.

(** The async [initialize]: [fetched] is the array handed in (entries
    may be undefined), [history] what [readFileFromExtensionRoot]
    resolves to (null when the file is missing). *)
Definition initialize (fetched : list (option IDependency))
    (history : option string) (m : t) : t :=
  let deps := omap (λ d, d) fetched in
  let dict' :=
    fold_left (λ (d : gmap string IDependency) dep,
                 if truthy (Some (id dep)) then <[id dep := dep]> d else d)
              deps (dict m) in
  {| bootVersion := bootVersion m; lastselected := history;
     dependencies := deps; dict := dict'; selectedIds := selectedIds m |}.

(** [this.dict[id]] is the lookup in the finite map, which holds for
    every id but the [inherited] names nothing was stored under. *)
Definition getSelectedDependencies (m : t) : list IDependency :=
  omap (λ x, dict m !! x) (selectedIds m).

Definition getUnselectedDependencies (m : t) : list IDependency :=
  filter (λ dep, indexOf (selectedIds m) (id dep) < 0) (dependencies m).

Definition newSeparator (name : string) : Item :=
  {| description := None; item_id := name;
     itemType := "separator"; label := name |}.

(** [String.prototype.split(",")]. *)
Fixpoint split_comma (s : string) : list string :=
  match s with
  | EmptyString => [""]
  | String c s' =>
      if Ascii.eqb c "," then "" :: split_comma s'
      else match split_comma s' with
           | w :: ws => String c w :: ws
           | [] => [String c ""]
           end
  end.

(** The ids of [idList] the index knows, [this.dict[id]] read as
    above, and the names found under them. *)
Definition genLastSelectedItem (idList : string) (m : t) : option Item :=
  let availIdList :=
    filter (λ x, is_Some (dict m !! x)) (split_comma idList) in
  let availNameList := omap (λ x, name <$> dict m !! x) availIdList in
  if negb (length availNameList =? 0)%nat
  then Some {| description := Some (join ", " availNameList);
               item_id := join "," availIdList;
               itemType := "lastUsed";
               label := "$(clock) Last used" |}
  else None.

Definition selectionItem (selectedIds : list string) : Item :=
  {| description := Some "";
     item_id := join "," selectedIds;
     itemType := "selection";
     label := "Selected " +:+ pretty (length selectedIds) +:+ " dependenc"
              +:+ (if (length selectedIds =? 1)%nat then "y" else "ies") |}.

Definition selectedItem (dep : IDependency) : Item :=
  {| description := Some (group dep); item_id := id dep;
     itemType := "dependency"; label := "(selected) " +:+ name dep |}.

Definition unselectedItem (dep : IDependency) : Item :=
  {| description := Some (group dep); item_id := id dep;
     itemType := "dependency"; label := name dep |}.

(** One iteration of [for (const dep of unselectedDeps)]; the loop state
    is the local [group] (undefined at first) and the array [ret]. *)
Definition unselectedStep (st : option string * list Item)
    (dep : IDependency) : option string * list Item :=
  let '(grp, ret) := st in
  let '(grp, ret) :=
    match grp with
    | Some g =>
        if negb (String.eqb g (group dep))
        then (Some (group dep), push ret (newSeparator (group dep)))
        else (grp, ret)
    | None => (grp, ret)
    end in
  (grp, push ret (unselectedItem dep)).

Definition unselectedLoop (unselectedDeps : list IDependency)
    (ret : list Item) : list Item :=
  snd (fold_left unselectedStep unselectedDeps (None, ret)).

(** [getQuickPickItems(serviceUrl, options)]. [fetched] and [history]
    are what the service and the history file answer when the catalog
    has to be loaded; [hasLastSelected] is [options?.hasLastSelected]. *)
Definition getQuickPickItems (fetched : list (option IDependency))
    (history : option string) (hasLastSelected : option bool) (m : t)
    : list Item * t :=
  let m := if (length (dependencies m) =? 0)%nat
           then initialize fetched history m else m in
  let ret : list Item := [] in
  let ret :=
    if (length (selectedIds m) =? 0)%nat then
      match hasLastSelected, lastselected m with
      | Some true, Some ls =>
          if truthy (Some ls) then
            match genLastSelectedItem ls m with
            | Some item => push ret item
            | None => ret
            end
          else ret
      | _, _ => ret
      end
    else ret in
  let ret := push ret (selectionItem (selectedIds m)) in
  let selectedDeps := getSelectedDependencies m in
  let ret :=
    if (0 <? length selectedDeps)%nat
    then push ret (newSeparator "Selected") ++ map selectedItem selectedDeps
    else ret in
  let unselectedDeps := getUnselectedDependencies m in
  let ret :=
    if (0 <? length unselectedDeps)%nat
    then unselectedLoop unselectedDeps ret
    else ret in
  (ret, m).

End DependencyManager.

(** ** Identifier validation (Utils/index.ts) *)

Module Validation.

(** Regular expressions over characters, as far as the three patterns
    need them, matched by derivatives. *)
Inductive regex :=
| Empty
| Eps
| Class (p : ascii → bool)
| Seq (r1 r2 : regex)
| Alt (r1 r2 : regex)
| Star (r : regex).

Definition Plus (r : regex) : regex := Seq r (Star r).

Fixpoint nullable (r : regex) : bool :=
  match r with
  | Empty => false
  | Eps => true
  | Class _ => false
  | Seq r1 r2 => nullable r1 && nullable r2
  | Alt r1 r2 => nullable r1 || nullable r2
  | Star _ => true
  end.

Fixpoint deriv (c : ascii) (r : regex) : regex :=
  match r with
  | Empty => Empty
  | Eps => Empty
  | Class p => if p c then Eps else Empty
  | Seq r1 r2 =>
      if nullable r1
      then Alt (Seq (deriv c r1) r2) (deriv c r2)
      else Seq (deriv c r1) r2
  | Alt r1 r2 => Alt (deriv c r1) (deriv c r2)
  | Star r' => Seq (deriv c r') (Star r')
  end.

(** [/^r$/.test(s)]: the whole of [s] matches [r]. *)
Fixpoint test (r : regex) (s : string) : bool :=
  match s with
  | EmptyString => nullable r
  | String c s' => test (deriv c r) s'
  end.

(** What it means for a string to match a pattern as a whole. *)
Inductive matches : regex → string → Prop :=
| matches_eps : matches Eps ""
| matches_class p c : p c = true → matches (Class p) (String c "")
| matches_seq r1 r2 s1 s2 :
    matches r1 s1 → matches r2 s2 → matches (Seq r1 r2) (s1 +:+ s2)
| matches_alt_l r1 r2 s : matches r1 s → matches (Alt r1 r2) s
| matches_alt_r r1 r2 s : matches r2 s → matches (Alt r1 r2) s
| matches_star_nil r : matches (Star r) ""
| matches_star_cons r s1 s2 :
    matches r s1 → matches (Star r) s2 → matches (Star r) (s1 +:+ s2).

Definition in_range (lo hi c : ascii) : bool :=
  ((nat_of_ascii lo <=? nat_of_ascii c) && (nat_of_ascii c <=? nat_of_ascii hi))%nat.

Definition is_char (x c : ascii) : bool := Ascii.eqb x c.

(** [[a-z_]] *)
Definition lower_us (c : ascii) : bool :=
  in_range "a" "z" c || is_char "_" c.

(** [[a-z0-9_]] *)
Definition lower_digit_us (c : ascii) : bool :=
  in_range "a" "z" c || in_range "0" "9" c || is_char "_" c.

(** The pattern of groupIdValidation and packageNameValidation,
    anchored at both ends:  [a-z_] [a-z0-9_]* ( \. [a-z0-9_]+ )*  *)
Definition dottedPattern : regex :=
  Seq (Class lower_us)
    (Seq (Star (Class lower_digit_us))
         (Star (Seq (Class (is_char ".")) (Plus (Class lower_digit_us))))).

(** The pattern of artifactIdValidation, anchored at both ends:
    [a-z_] [a-z0-9_]* ( - [a-z_] [a-z0-9_]* )*  *)
Definition dashedPattern : regex :=
  Seq (Class lower_us)
    (Seq (Star (Class lower_digit_us))
         (Star (Seq (Class (is_char "-"))
                    (Seq (Class lower_us) (Star (Class lower_digit_us)))))).

Definition groupIdValidation (value : string) : option string :=
  if test dottedPattern value then None else Some "Invalid Group Id".

Definition artifactIdValidation (value : string) : option string :=
  if test dashedPattern value then None else Some "Invalid Artifact Id".

Definition packageNameValidation (value : string) : option string :=
  if test dottedPattern value then None else Some "Invalid Package Name".

End Validation.

(** ** The wizard steps (handler/utils.ts and the Specify*Step classes) *)

Module Wizard.

(** The step singletons; [instanceof] becomes a match on the tag. *)
Inductive Step :=
| SpecifyServiceUrlStep
| SpecifyBootVersionStep
| SpecifyLanguageStep
| SpecifyGroupIdStep
| SpecifyArtifactIdStep
| SpecifyPackageNameStep
| SpecifyPackagingStep
| SpecifyJavaVersionStep
| SpecifyDependenciesStep.

(** [IDefaultProjectData], with the fields the steps read. *)
Record IDefaultProjectData := {
  d_language : option string;
  d_packaging : option string;
  d_artifactId : option string;
  d_targetFolder : option string;
  d_dependencies : option (list string)
}.

Record IProjectMetadata := {
  pickSteps : list Step;
  defaults : IDefaultProjectData;
  serviceUrl : option string;
  language : option string;
  javaVersion : option string;
  groupId : option string;
  artifactId : option string;
  packageName : option string;
  packaging : option string;
  bootVersion : option string
}.

(** The [defaultInput] fields of the three input-step singletons. *)
Record Inputs := {
  groupIdInput : option string;
  artifactIdInput : option string;
  packageNameInput : option string
}.

(** What a wizard run mutates: the metadata object of the handler and
    the singletons. *)
Record State := {
  metadata : IProjectMetadata;
  inputs : Inputs
}.

(** The host configuration section [spring.initializr]. *)
Record Config := {
  defaultLanguage : option string;
  defaultPackaging : option string;
  defaultArtifactId : option string
}.

(** [IHandlerItem<T>]: the picked entry of a quick pick. *)
Record IHandlerItem := {
  label : option string;
  value_id : option string
}.

Definition set_pickSteps (v : list Step) (m : IProjectMetadata) :=
  {| pickSteps := v; defaults := defaults m; serviceUrl := serviceUrl m;
     language := language m; javaVersion := javaVersion m;
     groupId := groupId m; artifactId := artifactId m;
     packageName := packageName m; packaging := packaging m;
     bootVersion := bootVersion m |}.
Definition set_language (v : option string) (m : IProjectMetadata) :=
  {| pickSteps := pickSteps m; defaults := defaults m;
     serviceUrl := serviceUrl m;
     language := v; javaVersion := javaVersion m;
     groupId := groupId m; artifactId := artifactId m;
     packageName := packageName m; packaging := packaging m;
     bootVersion := bootVersion m |}.
Definition set_javaVersion (v : option string) (m : IProjectMetadata) :=
  {| pickSteps := pickSteps m; defaults := defaults m;
     serviceUrl := serviceUrl m;
     language := language m; javaVersion := v;
     groupId := groupId m; artifactId := artifactId m;
     packageName := packageName m; packaging := packaging m;
     bootVersion := bootVersion m |}.
Definition set_groupId (v : option string) (m : IProjectMetadata) :=
  {| pickSteps := pickSteps m; defaults := defaults m;
     serviceUrl := serviceUrl m;
     language := language m; javaVersion := javaVersion m;
     groupId := v; artifactId := artifactId m;
     packageName := packageName m; packaging := packaging m;
     bootVersion := bootVersion m |}.
Definition set_artifactId (v : option string) (m : IProjectMetadata) :=
  {| pickSteps := pickSteps m; defaults := defaults m;
     serviceUrl := serviceUrl m;
     language := language m; javaVersion := javaVersion m;
     groupId := groupId m; artifactId := v;
     packageName := packageName m; packaging := packaging m;
     bootVersion := bootVersion m |}.
Definition set_packageName (v : option string) (m : IProjectMetadata) :=
  {| pickSteps := pickSteps m; defaults := defaults m;
     serviceUrl := serviceUrl m;
     language := language m; javaVersion := javaVersion m;
     groupId := groupId m; artifactId := artifactId m;
     packageName := v; packaging := packaging m;
     bootVersion := bootVersion m |}.
Definition set_packaging (v : option string) (m : IProjectMetadata) :=
  {| pickSteps := pickSteps m; defaults := defaults m;
     serviceUrl := serviceUrl m;
     language := language m; javaVersion := javaVersion m;
     groupId := groupId m; artifactId := artifactId m;
     packageName := packageName m; packaging := v;
     bootVersion := bootVersion m |}.
Definition set_bootVersion (v : option string) (m : IProjectMetadata) :=
  {| pickSteps := pickSteps m; defaults := defaults m;
     serviceUrl := serviceUrl m;
     language := language m; javaVersion := javaVersion m;
     groupId := groupId m; artifactId := artifactId m;
     packageName := packageName m; packaging := packaging m;
     bootVersion := v |}.

Definition on_metadata (f : IProjectMetadata → IProjectMetadata)
    (st : State) : State :=
  {| metadata := f (metadata st); inputs := inputs st |}.
Definition on_inputs (f : Inputs → Inputs) (st : State) : State :=
  {| metadata := metadata st; inputs := f (inputs st) |}.

Definition set_groupIdInput (v : option string) (i : Inputs) :=
  {| groupIdInput := v; artifactIdInput := artifactIdInput i;
     packageNameInput := packageNameInput i |}.
Definition set_artifactIdInput (v : option string) (i : Inputs) :=
  {| groupIdInput := groupIdInput i; artifactIdInput := v;
     packageNameInput := packageNameInput i |}.
Definition set_packageNameInput (v : option string) (i : Inputs) :=
  {| groupIdInput := groupIdInput i; artifactIdInput := artifactIdInput i;
     packageNameInput := v |}.

(** [String.prototype.toLowerCase] on the ASCII letters. *)
Definition lower_ascii (c : ascii) : ascii :=
  let n := nat_of_ascii c in
  if ((65 <=? n) && (n <=? 90))%nat then ascii_of_nat (n + 32) else c.

Fixpoint toLowerCase (s : string) : string :=
  match s with
  | EmptyString => EmptyString
  | String c s' => String (lower_ascii c) (toLowerCase s')
  end.

(** [projectMetadata.pickSteps.push(step)] *)
Definition pushStep (step : Step) : M State unit :=
  modify (on_metadata (λ m, set_pickSteps (push (pickSteps m) step) m)).

(** [projectMetadata.pickSteps.pop()] *)
Definition popStep : M State (option Step) :=
  λ st, let '(top, rest) := pop (pickSteps (metadata st)) in
        (Ok top, on_metadata (set_pickSteps rest) st).

(** [createPickBox(pickMetadata)]; [selected] is what [showQuickPick]
    resolves to, undefined when the pick is dismissed. *)
Definition createPickBox (pickStep : Step) (selected : option IHandlerItem)
    : M State bool :=
  match selected with
  | None =>
      match pickStep with
      | SpecifyLanguageStep =>
          throw (OperationCanceledError "Language not specified.")
      | SpecifyJavaVersionStep =>
          throw (OperationCanceledError "Java version not specified.")
      | SpecifyPackagingStep =>
          throw (OperationCanceledError "Packaging not specified.")
      | SpecifyBootVersionStep =>
          throw (OperationCanceledError "BootVersion not specified.")
      | _ => ret false
      end
  | Some sel =>
      do _ <- match pickStep with
              | SpecifyLanguageStep =>
                  modify (on_metadata (set_language (toLowerCase <$> label sel)))
              | SpecifyJavaVersionStep =>
                  modify (on_metadata (set_javaVersion (value_id sel)))
              | SpecifyPackagingStep =>
                  modify (on_metadata (set_packaging (toLowerCase <$> label sel)))
              | SpecifyBootVersionStep =>
                  modify (on_metadata (set_bootVersion (value_id sel)))
              | _ => ret tt
              end;
      do _ <- pushStep pickStep;
      ret true
  end.

(** [createInputBox(inputMetaData)]; [input] is what [requestInput]
    resolves to, undefined when the prompt is dismissed. *)
Definition createInputBox (pickStep : Step) (input : option string)
    : M State bool :=
  match input with
  | None =>
      match pickStep with
      | SpecifyGroupIdStep =>
          throw (OperationCanceledError "GroupId not specified.")
      | SpecifyArtifactIdStep =>
          throw (OperationCanceledError "ArtifactId not specified.")
      | SpecifyPackageNameStep =>
          throw (OperationCanceledError "PackageName not specified.")
      | _ => ret false
      end
  | Some input =>
      do _ <- match pickStep with
              | SpecifyGroupIdStep =>
                  do _ <- modify (on_metadata (set_groupId (Some input)));
                  do _ <- modify (on_inputs (set_groupIdInput (Some input)));
                  pushStep SpecifyGroupIdStep
              | SpecifyArtifactIdStep =>
                  do _ <- modify (on_metadata (set_artifactId (Some input)));
                  do _ <- modify (on_inputs (set_artifactIdInput (Some input)));
                  pushStep SpecifyArtifactIdStep
              | SpecifyPackageNameStep =>
                  do _ <- modify (on_metadata (set_packageName (Some input)));
                  do _ <- modify (on_inputs (set_packageNameInput (Some input)));
                  pushStep SpecifyPackageNameStep
              | _ => ret tt
              end;
      ret true
  end.

(** [getNextStep()] of the step classes among the sources. *)
Definition getNextStep (step : Step) : option Step :=
  match step with
  | SpecifyServiceUrlStep => Some SpecifyBootVersionStep
  | SpecifyBootVersionStep => Some SpecifyLanguageStep
  | SpecifyLanguageStep => Some SpecifyGroupIdStep
  | SpecifyArtifactIdStep => Some SpecifyPackageNameStep
  | SpecifyPackagingStep => Some SpecifyJavaVersionStep
  | SpecifyDependenciesStep => None
  | _ => None
  end.

(** The shape every [execute] but the service URL's has:
    [if (!(await this.specifyX(md))) return md.pickSteps.pop();
     return this.getNextStep();] *)
Definition executeWith (step : Step) (specify : M State bool)
    : M State (option Step) :=
  do ok <- specify;
  if negb ok then popStep else ret (getNextStep step).

(** SpecifyBootVersionStep *)
Definition specifyBootVersion (selected : option IHandlerItem)
    : M State bool :=
  createPickBox SpecifyBootVersionStep selected.

(** SpecifyLanguageStep *)
Definition specifyLanguage (cfg : Config) (selected : option IHandlerItem)
    : M State bool :=
  do st <- get;
  let language := js_or (d_language (defaults (metadata st)))
                        (defaultLanguage cfg) in
  if truthy language then
    do _ <- modify (on_metadata (set_language (toLowerCase <$> language)));
    ret true
  else createPickBox SpecifyLanguageStep selected.

(** SpecifyPackagingStep *)
Definition specifyPackaging (cfg : Config) (selected : option IHandlerItem)
    : M State bool :=
  do st <- get;
  let packaging := js_or (d_packaging (defaults (metadata st)))
                         (defaultPackaging cfg) in
  if truthy packaging then
    do _ <- modify (on_metadata (set_packaging (toLowerCase <$> packaging)));
    ret true
  else createPickBox SpecifyPackagingStep selected.

(** SpecifyArtifactIdStep. [defaultValue] pre-fills the prompt; what the
    prompt resolves to is [input]. *)
Definition defaultValue (st : State) : string :=
  default "" (js_or (js_or (d_artifactId (defaults (metadata st)))
                           (artifactIdInput (inputs st)))
                    (Some "")).

Definition specifyArtifactId (input : option string) : M State bool :=
  createInputBox SpecifyArtifactIdStep input.

Definition resetDefaultInput (cfg : Config) : M State unit :=
  modify (on_inputs (set_artifactIdInput (defaultArtifactId cfg))).

(** [execute] of the four step classes; the last argument of the first
    three is the user's answer should the step show its prompt. *)
Definition executeBootVersion (selected : option IHandlerItem) :=
  executeWith SpecifyBootVersionStep (specifyBootVersion selected).
Definition executeLanguage (cfg : Config) (selected : option IHandlerItem) :=
  executeWith SpecifyLanguageStep (specifyLanguage cfg selected).
Definition executePackaging (cfg : Config) (selected : option IHandlerItem) :=
  executeWith SpecifyPackagingStep (specifyPackaging cfg selected).
Definition executeArtifactId (input : option string) :=
  executeWith SpecifyArtifactIdStep (specifyArtifactId input).

End Wizard.

(** ** The pom.xml patcher (Utils/xml/index.ts) *)

Module Xml.

(** *** The host side: text documents, positions and edits

    A document is its uri and its text, lines ending in a line feed;
    [positionAt] clamps an offset to the text, [offsetAt] clamps a
    character to its line, as the host's TextDocument does. *)

Record Position := { line : nat; character : nat }.
Record Range := { r_start : Position; r_end : Position }.
Record TextEdit := { range : Range; newText : string }.
Record WorkspaceEdit := { changes : option (gmap string (list TextEdit)) }.
Record Document := { uri : string; text : string }.

Definition LF : ascii := ascii_of_nat 10.
Definition is_LF (c : ascii) : bool := Ascii.eqb c LF.

(** The position of offset [n] in [s]: past a line feed it is one line
    further down; past any other character it is one column further
    right if still on the first line. *)
Fixpoint positionAt_go (s : string) (n : nat) : Position :=
  match n, s with
  | S n', String c s' =>
      let p := positionAt_go s' n' in
      if is_LF c then {| line := S (line p); character := character p |}
      else {| line := line p;
              character := if (line p =? 0)%nat then S (character p)
                           else character p |}
  | _, _ => {| line := 0%nat; character := 0%nat |}
  end.

Definition positionAt (doc : Document) (offset : Z) : Position :=
  positionAt_go (text doc) (Z.to_nat offset).

(** Offset of character [ch] on the line that starts [s]. *)
Fixpoint columnOffset (s : string) (ch : nat) : nat :=
  match ch, s with
  | S ch', String c s' =>
      if is_LF c then 0%nat else S (columnOffset s' ch')
  | _, _ => 0%nat
  end.

Fixpoint offsetAt_go (s : string) (ln ch : nat) : nat :=
  match ln with
  | O => columnOffset s ch
  | S ln' =>
      match s with
      | EmptyString => 0%nat
      | String c s' =>
          S (if is_LF c then offsetAt_go s' ln' ch else offsetAt_go s' ln ch)
      end
  end.

Definition offsetAt (doc : Document) (p : Position) : nat :=
  offsetAt_go (text doc) (line p) (character p).

(** [document.getText(range)] *)
Definition getText (doc : Document) (r : Range) : string :=
  let a := offsetAt doc (r_start r) in
  let b := offsetAt doc (r_end r) in
  substring a (b - a) (text doc).

(** [TextEdit.insert(position, newText)] *)
Definition TextEdit_insert (p : Position) (newText : string) : TextEdit :=
  {| range := {| r_start := p; r_end := p |}; newText := newText |}.

(** Replacing [range] by [newText]. *)
Definition applyTextEdit (doc : Document) (e : TextEdit) : Document :=
  let a := offsetAt doc (r_start (range e)) in
  let b := offsetAt doc (r_end (range e)) in
  {| uri := uri doc;
     text := substring 0 a (text doc) +:+ newText e
             +:+ substring b (String.length (text doc) - b) (text doc) |}.

(** [workspace.applyEdit(edit)] on the open document: the edits listed
    under its uri are applied one after the other. *)
Definition applyEdit (edit : WorkspaceEdit) : M Document unit :=
  modify (λ doc,
    match changes edit with
    | Some ch => fold_left applyTextEdit (default [] (ch !! uri doc)) doc
    | None => doc
    end).

(** The editor options and the platform [updateWorkspaceEdit] reads,
    and the lexer of ./lexer, [getNodesByTag(content, tag)]. *)
#[warnings="-register-all"]
Inductive Node :=
| Element (name : string) (startIndex endIndex : Z) (children : list Node)
| Data (startIndex endIndex : Z).

Record Host := {
  getNodesByTag : string → string → list Node;
  platform : string;
  insertSpaces : bool;
  tabSize : nat
}.

Definition isTag (n : Node) : bool :=
  match n with Element _ _ _ _ => true | Data _ _ => false end.
Definition name (n : Node) : string :=
  match n with Element x _ _ _ => x | Data _ _ => "" end.
Definition startIndex (n : Node) : Z :=
  match n with Element _ i _ _ => i | Data i _ => i end.
Definition endIndex (n : Node) : Z :=
  match n with Element _ _ i _ => i | Data _ i => i end.
Definition children (n : Node) : list Node :=
  match n with Element _ _ _ c => c | Data _ _ => [] end.

(** Modelled from the spec: the XmlTagName enum of ./lexer is not among
    the sources; its members are the element names the spec gives. *)
Module XmlTagName.
Definition Project : string := "project".
Definition Dependencies : string := "dependencies".
Definition DependencyManagement : string := "dependencyManagement".
End XmlTagName.

(** [children.find((node) => isTag(node) && node.tagName === tag)] *)
Definition findTag (tag : string) (nodes : list Node) : option Node :=
  List.find (λ node, isTag node && String.eqb (name node) tag) nodes.

(** *** Rendering of the fragments *)

Record IArtifact := {
  groupId : string;
  artifactId : string;
  version : option string;
  scope : option string
}.

Record IBom := {
  bom_groupId : string;
  bom_artifactId : string;
  bom_version : string;
  bom_scope : option string;
  bom_type : option string
}.

(** The values an array literal of [toTextLine] holds before
    [filter(Boolean)]. *)
Inductive JsVal :=
| Undefined
| Bool (b : bool)
| Str (s : string).

Definition of_opt (v : option string) : JsVal :=
  match v with Some s => Str s | None => Undefined end.

Definition Boolean (v : JsVal) : bool :=
  match v with
  | Undefined => false
  | Bool b => b
  | Str s => negb (String.eqb s "")
  end.

(** [a && b] *)
Definition js_and (a b : JsVal) : JsVal := if Boolean a then b else a.

(** What a template literal prints for a value. *)
Definition js_string (v : JsVal) : string :=
  match v with
  | Undefined => "undefined"
  | Bool true => "true"
  | Bool false => "false"
  | Str s => s
  end.

(** [array.filter(Boolean) as string[]], the entries read as the
    template literal of [wrapWithParentNode] reads them. *)
Definition filterBoolean (l : list JsVal) : list string :=
  map js_string (List.filter Boolean l).

Definition tagged (tag body : string) : string :=
  "<" +:+ tag +:+ ">" +:+ body +:+ "</" +:+ tag +:+ ">".

Definition wrapWithParentNode (lines : list string) (indent parent : string)
    : list string :=
  ["<" +:+ parent +:+ ">"] ++ map (λ l, indent +:+ l) lines
    ++ ["</" +:+ parent +:+ ">"].

Definition toTextLine (artifact : IArtifact) (indent : string) : list string :=
  let lines := filterBoolean [
    Str (tagged "groupId" (groupId artifact));
    Str (tagged "artifactId" (artifactId artifact));
    js_and (of_opt (version artifact))
           (Str (tagged "version" (default "" (version artifact))));
    js_and (js_and (of_opt (scope artifact))
                   (Bool (negb (String.eqb (default "" (scope artifact)) "compile"))))
           (Str (tagged "scope" (default "" (scope artifact)))) ] in
  wrapWithParentNode lines indent "dependency".

Definition bomToTextLine (bom : IBom) (indent : string) : list string :=
  let lines := [
    tagged "groupId" (bom_groupId bom);
    tagged "artifactId" (bom_artifactId bom);
    tagged "version" (bom_version bom);
    "<type>pom</type>";
    "<scope>import</scope>" ] in
  wrapWithParentNode lines indent "dependency".

(** The two classes extending PomNode. *)
Inductive PomNode :=
| DependencyNodes (artifacts : list IArtifact) (initParent : bool)
| BOMNodes (boms : list IBom) (parents : option (list string)).

Definition getTextLines (node : PomNode) (indent : string) : list string :=
  match node with
  | DependencyNodes artifacts initParent =>
      let listOfLines := flat_map (λ a, toTextLine a indent) artifacts in
      if initParent
      then wrapWithParentNode listOfLines indent "dependencies"
      else listOfLines
  | BOMNodes boms parents =>
      let listOfLines := flat_map (λ b, bomToTextLine b indent) boms in
      match parents with
      | Some ps =>
          fold_left (λ lines parent, wrapWithParentNode lines indent parent)
                    ps listOfLines
      | None => listOfLines
      end
  end.

Definition constructNodeText (nodeToInsert : PomNode)
    (baseIndent indent eol : string) : string :=
  let lines := getTextLines nodeToInsert indent in
  join (eol +:+ baseIndent +:+ indent) ("" :: lines) +:+ eol.

(** *** Placing the insertion *)

(** The characters [\s] and [trim] take for white space, in ASCII. *)
Definition is_space (c : ascii) : bool :=
  let n := nat_of_ascii c in
  ((9 <=? n) && (n <=? 13) || (n =? 32))%nat.

Fixpoint all_space (s : string) : bool :=
  match s with
  | EmptyString => true
  | String c s' => is_space c && all_space s'
  end.

(** The match of the pattern for leading white space, or the empty
    string. *)
Fixpoint leading_space (s : string) : string :=
  match s with
  | EmptyString => EmptyString
  | String c s' => if is_space c then String c (leading_space s') else EmptyString
  end.

Definition lineStart (p : Position) : Position :=
  {| line := line p; character := 0%nat |}.

Definition getIndentation (document : Document) (offset : Z) : string :=
  let pos := positionAt document offset in
  let lineContentToPos :=
    getText document {| r_start := lineStart pos; r_end := pos |} in
  leading_space lineContentToPos.

Fixpoint repeat_string (s : string) (n : nat) : string :=
  match n with
  | O => ""
  | S n' => s +:+ repeat_string s n'
  end.

Definition TAB : string := String (ascii_of_nat 9) "".
Definition EOL_LF : string := String LF "".
Definition EOL_CRLF : string := String (ascii_of_nat 13) (String LF "").

(** The offset the closing tag of [parentNode] starts at, the element
    ending in that tag: its name, two brackets and a slash before
    [endIndex], the index of its last character. *)
Definition closingTagOffset (parentNode : Node) : Z :=
  endIndex parentNode - (Z.of_nat (String.length (name parentNode)) + 3) + 1.

(** [insertPos] after the move to the line start. *)
Definition insertPosition (doc : Document) (parentNode : Node) : Position :=
  let insertPos := positionAt doc (closingTagOffset parentNode) in
  let insPosLineStart := lineStart insertPos in
  let contentBefore :=
    getText doc {| r_start := insPosLineStart; r_end := insertPos |} in
  if all_space contentBefore then insPosLineStart else insertPos.

(** [updateWorkspaceEdit(edit, uri, parentNode, nodeToInsert)]; the
    document opened for [uri] is the state. [focusCurrentResource] moves
    the editor focus only and is left out. *)
Definition updateWorkspaceEdit (host : Host) (edit : WorkspaceEdit)
    (parentNode : Node) (nodeToInsert : PomNode) : M Document WorkspaceEdit :=
  do currentDocument <- get;
  let baseIndent := getIndentation currentDocument (startIndex parentNode) in
  let insertPos := insertPosition currentDocument parentNode in
  let indent := if insertSpaces host
                then repeat_string " " (tabSize host) else TAB in
  let eol := if negb (String.eqb (platform host) "win32")
             then EOL_LF else EOL_CRLF in
  let targetText := constructNodeText nodeToInsert baseIndent indent eol in
  let textEdit := TextEdit_insert insertPos targetText in
  let ch := default ∅ (changes edit) in
  ret {| changes := Some (<[uri currentDocument := [textEdit]]> ch) |}.

Definition getActiveProjectNode (host : Host) : M Document Node :=
  do baseDocument <- get;
  let content := text baseDocument in
  let projectNodes := getNodesByTag host content XmlTagName.Project in
  match projectNodes with
  | [projectNode] => ret projectNode
  | _ => throw (UserError "Only support POM file with single <project> node.")
  end.

Definition updatePom (host : Host) (deps : list IArtifact) (boms : list IBom)
    : M Document unit :=
  let edit := {| changes := Some ∅ |} in
  do projectNode <- getActiveProjectNode host;
  do edit <-
    match findTag XmlTagName.Dependencies (children projectNode) with
    | Some dependenciesNode =>
        updateWorkspaceEdit host edit dependenciesNode
          (DependencyNodes deps false)
    | None =>
        updateWorkspaceEdit host edit projectNode (DependencyNodes deps true)
    end;
  do edit <-
    if (0 <? length boms)%nat then
      match findTag XmlTagName.DependencyManagement (children projectNode) with
      | Some depMgmtNode =>
          match findTag XmlTagName.Dependencies (children depMgmtNode) with
          | Some depsNodes =>
              updateWorkspaceEdit host edit depsNodes (BOMNodes boms None)
          | None =>
              updateWorkspaceEdit host edit depMgmtNode
                (BOMNodes boms (Some ["dependencies"]))
          end
      | None =>
          updateWorkspaceEdit host edit projectNode
            (BOMNodes boms (Some ["dependencies"; "dependencyManagement"]))
      end
    else ret edit;
  applyEdit edit.

End Xml.

(** ** The files of the extension (Utils/index.ts) *)

Module Storage.

(** What the host knows of the extension: its install directory, when the
    extension is found, and [path.join]. The files are the state: the
    regular files under that directory, by path, with their content.
    The disk is taken as reliable: the calls of fs-extra are read as
    succeeding (they can reject, on a directory in the place of the file
    or a disk that cannot be written, and nothing here catches that),
    and a write as landed when the next read comes, although
    [updateLastUsedDependencies] does not await it. *)
Record Extension := {
  extensionPath : option string;
  path_join : string → string → string
}.

Definition writeFileToExtensionRoot (ext : Extension)
    (relativePath data : string) : M (gmap string string) unit :=
  match extensionPath ext with
  | Some extensionRootPath =>
      if truthy (Some extensionRootPath)
      then modify (λ files,
             <[path_join ext extensionRootPath relativePath := data]> files)
      else ret tt
  | None => ret tt
  end.

Definition readFileFromExtensionRoot (ext : Extension)
    (relativePath : string) : M (gmap string string) (option string) :=
  match extensionPath ext with
  | Some extensionRootPath =>
      if truthy (Some extensionRootPath)
      then do files <- get;
           ret (files !! path_join ext extensionRootPath relativePath)
      else ret None
  | None => ret None
  end.

End Storage.

(** ** The service URL step (SpecifyServiceUrlStep, handler/utils.ts) *)

Module ServiceUrlStep.
Import Wizard.

(** The setting [spring.initializr.serviceUrl]: a string or an array of
    strings; unset, it reads as the empty array. *)
Inductive ServiceUrlConfig :=
| UrlString (url : string)
| UrlArray (urls : list string).

Definition DEFAULT_SERVICE_URL : string := "https://start.spring.io".

Definition set_serviceUrl (v : option string) (m : IProjectMetadata) :=
  {| pickSteps := pickSteps m; defaults := defaults m;
     serviceUrl := v;
     language := language m; javaVersion := javaVersion m;
     groupId := groupId m; artifactId := artifactId m;
     packageName := packageName m; packaging := packaging m;
     bootVersion := bootVersion m |}.

(** [specifyServiceUrl(projectMetadata?)]; [withMetadata] tells whether
    the metadata was handed in, [answer] is the index the user picks in
    the quick pick of the URLs, none when the pick is dismissed. *)
Definition specifyServiceUrl (configValue : ServiceUrlConfig)
    (withMetadata : bool) (answer : option nat) : M State (option string) :=
  match configValue with
  | UrlString url => ret (Some url)
  | UrlArray urls =>
      if (0 <? length urls)%nat then
        if (length urls =? 1)%nat then ret (urls !! 0%nat)
        else
          do _ <- (if withMetadata then pushStep SpecifyServiceUrlStep
                   else ret tt);
          ret (answer ≫= (urls !!.))
      else ret (Some DEFAULT_SERVICE_URL)
  end.

Definition execute (configValue : ServiceUrlConfig) (answer : option nat)
    : M State (option Step) :=
  do url <- specifyServiceUrl configValue true answer;
  do _ <- modify (on_metadata (set_serviceUrl url));
  match url with
  | None => throw (OperationCanceledError "Service URL not specified.")
  | Some _ => ret (getNextStep SpecifyServiceUrlStep)
  end.

End ServiceUrlStep.

(** ** The last used selection (DependencyManager.ts, Utils/index.ts) *)

Module DependencyHistory.
Import DependencyManager Storage.

Definition DEPENDENCIES_HISTORY_FILENAME : string := ".last_used_dependencies".

Definition set_lastselected (v : option string) (m : t) : t :=
  {| bootVersion := bootVersion m; lastselected := v;
     dependencies := dependencies m; dict := dict m;
     selectedIds := selectedIds m |}.

Definition set_selectedIds (v : list string) (m : t) : t :=
  {| bootVersion := bootVersion m; lastselected := lastselected m;
     dependencies := dependencies m; dict := dict m;
     selectedIds := v |}.

(** [updateLastUsedDependencies(v)]: the id list of [v] goes to the
    history file and into [lastselected]. *)
Definition updateLastUsedDependencies (ext : Extension) (v : Item) (m : t)
    : M (gmap string string) t :=
  do _ <- writeFileToExtensionRoot ext DEPENDENCIES_HISTORY_FILENAME (item_id v);
  ret (set_lastselected (Some (item_id v)) m).

(** What [initialize] reads from the history file. *)
Definition history (ext : Extension) (files : gmap string string)
    : option string :=
  match readFileFromExtensionRoot ext DEPENDENCIES_HISTORY_FILENAME files with
  | (Ok idList, _) => idList
  | (Throw _, _) => None
  end.

End DependencyHistory.

(** ** The dependencies step (handler/SpecifyDependenciesStep.ts) *)

Module DependenciesStep.
Import DependencyManager Storage DependencyHistory Wizard.

(** What the step works on: the wizard state, the [dependencies] property
    of the metadata, kept beside it, and the files of the extension. *)
Record World := {
  wizard : State;
  dependencies : option Item;
  files : gmap string string
}.

Definition set_defaults (v : IDefaultProjectData) (m : IProjectMetadata) :=
  {| pickSteps := pickSteps m; defaults := v; serviceUrl := serviceUrl m;
     language := language m; javaVersion := javaVersion m;
     groupId := groupId m; artifactId := artifactId m;
     packageName := packageName m; packaging := packaging m;
     bootVersion := Wizard.bootVersion m |}.

Definition set_d_dependencies (v : option (list string))
    (d : IDefaultProjectData) :=
  {| d_language := d_language d; d_packaging := d_packaging d;
     d_artifactId := d_artifactId d; d_targetFolder := d_targetFolder d;
     d_dependencies := v |}.

(** The manager of the step, and whether its [selectedIds] still is the
    array [defaults.dependencies] it was given: [push] writes through to
    a shared array, [filter] makes a new one. *)
Record Picker := {
  manager : DependencyManager.t;
  shared : bool
}.

Definition toggleDependency (x : string) (pk : Picker) (st : State)
    : Picker * State :=
  let m := DependencyManager.toggleDependency x (manager pk) in
  if 0 <=? indexOf (selectedIds (manager pk)) x
  then ({| manager := m; shared := false |}, st)
  else ({| manager := m; shared := shared pk |},
        if shared pk
        then on_metadata
               (λ md, set_defaults
                        (set_d_dependencies (Some (selectedIds m)) (defaults md))
                        md) st
        else st).

(** The do-while of [specifyDependencies]. [answers] lists, round by
    round, the index the user picks in the list shown, none for a
    dismissed pick; when they run out the pick is dismissed. *)
Fixpoint pickLoop (fetched : list (option IDependency))
    (idList : option string) (answers : list (option nat))
    (pk : Picker) (st : State) : option Item * Picker * State :=
  let '(quickPickItems, m) :=
    getQuickPickItems fetched idList (Some true) (manager pk) in
  let pk := {| manager := m; shared := shared pk |} in
  match answers with
  | [] => (None, pk, st)
  | answer :: answers' =>
      match answer ≫= (quickPickItems !!.) with
      | Some current =>
          if String.eqb (itemType current) "dependency"
          then let '(pk, st) := toggleDependency (item_id current) pk st in
               pickLoop fetched idList answers' pk st
          else (Some current, pk, st)
      | None => (None, pk, st)
      end
  end.

(** [specifyDependencies(projectMetadata)]; [fetched] is the catalog the
    service answers for the boot version of the metadata, which the
    manager uses for that fetch only (undefined, it reads as the empty
    string here). *)
Definition specifyDependencies (ext : Extension)
    (fetched : list (option IDependency)) (answers : list (option nat))
    : M World bool :=
  λ w,
    let projectMetadata := metadata (wizard w) in
    let given := d_dependencies (defaults projectMetadata) in
    let dependencyManager :=
      set_selectedIds (default [] given)
        (create (default "" (Wizard.bootVersion projectMetadata))) in
    let pk := {| manager := dependencyManager;
                 shared := bool_decide (is_Some given) |} in
    let '(current, pk, st) :=
      pickLoop fetched (history ext (files w)) answers pk (wizard w) in
    match current with
    | Some current =>
        let '(_, files') :=
          updateLastUsedDependencies ext current (manager pk) (files w) in
        (Ok true,
         {| wizard := st; dependencies := Some current; files := files' |})
    | None =>
        (Ok false,
         {| wizard := st; dependencies := dependencies w; files := files w |})
    end.

Definition popStep : M World (option Step) :=
  λ w, let '(r, st) := Wizard.popStep (wizard w) in
       (r, {| wizard := st; dependencies := dependencies w;
              files := files w |}).

Definition execute (ext : Extension) (fetched : list (option IDependency))
    (answers : list (option nat)) : M World (option Step) :=
  do ok <- specifyDependencies ext fetched answers;
  if negb ok then popStep else ret (getNextStep SpecifyDependenciesStep).

End DependenciesStep.

(** ** Choosing the starters to add (handler/AddStartersHandler.ts) *)

Module AddStarters.
Import DependencyManager DependencyHistory.

(** The do-while of [runSteps]: a picked dependency is toggled unless the
    pom already has it. *)
Fixpoint pickLoop (oldStarterIds : list string)
    (fetched : list (option IDependency)) (idList : option string)
    (answers : list (option nat)) (m : t) : option Item * t :=
  let '(quickPickItems, m) := getQuickPickItems fetched idList None m in
  match answers with
  | [] => (None, m)
  | answer :: answers' =>
      match answer ≫= (quickPickItems !!.) with
      | Some current =>
          if String.eqb (itemType current) "dependency"
          then pickLoop oldStarterIds fetched idList answers'
                 (if indexOf oldStarterIds (item_id current) =? -1
                  then toggleDependency (item_id current) m else m)
          else (Some current, m)
      | None => (None, m)
      end
  end.

(** How the part of [runSteps] between the catalog and [updatePom] ends;
    [Failed] is the TypeError of [dict[d].name] for an id [d] the index
    does not hold, raised while the text of the confirmation is built. *)
Inductive Outcome :=
| Dismissed
| NoChanges
| Failed
| Declined
| Proceed (toAdd : list string).

Definition chooseStarters (bootVersion : string) (oldStarterIds : list string)
    (fetched : list (option IDependency)) (idList : option string)
    (answers : list (option nat)) (choice : option string) : Outcome :=
  let dependencyManager :=
    set_selectedIds ([] ++ oldStarterIds) (create bootVersion) in
  let '(current, dependencyManager) :=
    pickLoop oldStarterIds fetched idList answers dependencyManager in
  match current with
  | None => Dismissed
  | Some _ =>
      let toAdd :=
        List.filter (λ elem, indexOf oldStarterIds elem <? 0)
          (selectedIds dependencyManager) in
      if (length toAdd =? 0)%nat then NoChanges
      else if forallb (λ d, bool_decide (is_Some (dict dependencyManager !! d)))
                toAdd
      then match choice with
           | Some c => if String.eqb c "Proceed" then Proceed toAdd else Declined
           | None => Declined
           end
      else Failed
  end.

End AddStarters.

(** ** Opening the generated project (handler/GenerateProjectHandler.ts) *)

Module GenerateProject.

Definition OPEN_IN_NEW_WORKSPACE : string := "Open".
Definition CANCEL_OPEN_WORKSPACE : string := "Cancel".

(** [specifyOpenMethod(hasOpenFolder, projectLocation)];
    [defaultOpenProjectMethod] is the setting, none when unset, [answer]
    the index the user picks among the candidates. *)
Definition specifyOpenMethod (defaultOpenProjectMethod : option string)
    (hasOpenFolder : bool) (answer : option nat) : string :=
  let openMethod := default OPEN_IN_NEW_WORKSPACE defaultOpenProjectMethod in
  if negb (String.eqb openMethod CANCEL_OPEN_WORKSPACE)
     && negb (String.eqb openMethod OPEN_IN_NEW_WORKSPACE)
  then
    let candidates :=
      omap (λ c, c)
        [Some OPEN_IN_NEW_WORKSPACE;
         if hasOpenFolder then Some CANCEL_OPEN_WORKSPACE else None] in
    match answer ≫= (candidates !!.) with
    | Some result => result
    | None => CANCEL_OPEN_WORKSPACE
    end
  else openMethod.

End GenerateProject.

(** * Reading aids and sample inputs *)

(** ** A small catalog *)

Section SelectionAids.
Import DependencyManager.

Definition web : IDependency :=
  {| id := "web"; name := "Spring Web"; group := "Web" |}.
Definition jpa : IDependency :=
  {| id := "data-jpa"; name := "Spring Data JPA"; group := "SQL" |}.
Definition jdbc : IDependency :=
  {| id := "jdbc"; name := "JDBC API"; group := "SQL" |}.

End SelectionAids.

(** ** The optional lines of an artifact *)

Section RenderingAids.
Import Xml.

Implicit Types (a : IArtifact).

(** What [toTextLine] keeps of the optional elements. *)
Definition versionLines a : list string :=
  match version a with
  | Some v => if String.eqb v "" then [] else [tagged "version" v]
  | None => []
  end.

Definition scopeLines a : list string :=
  match scope a with
  | Some s =>
      if String.eqb s "" then []
      else if String.eqb s "compile" then [] else [tagged "scope" s]
  | None => []
  end.

End RenderingAids.

(** ** Inserted blocks and sample poms *)

Section PatcherAids.
Import Xml.

Implicit Types (host : Host) (doc : Document).

(** The indentation unit and the line ending [updateWorkspaceEdit]
    takes from the editor and the platform. *)
Definition editorIndent host : string :=
  if insertSpaces host then repeat_string " " (tabSize host) else TAB.

Definition platformEol host : string :=
  if negb (String.eqb (platform host) "win32") then EOL_LF else EOL_CRLF.

(** The text made of [lines] for insertion under [parentNode]. *)
Definition blockText host doc (parentNode : Node) (lines : list string)
    : string :=
  join (platformEol host +:+ getIndentation doc (startIndex parentNode)
        +:+ editorIndent host) ("" :: lines)
  +:+ platformEol host.

(** [doc] after the single insertion of [lines] under [parentNode]. *)
Definition inserted host doc (parentNode : Node) (lines : list string)
    : Document :=
  applyTextEdit doc
    (TextEdit_insert (insertPosition doc parentNode)
       (blockText host doc parentNode lines)).

(** A pom on one line, with a dependencies element and no
    dependencyManagement, and what the lexer reports for it. *)
Definition pomText : string :=
  "<project><dependencies></dependencies></project>".
Definition pom : Document := {| uri := "file:///demo/pom.xml"; text := pomText |}.
Definition pomProject : Node :=
  Element "project" 0 47 [Element "dependencies" 9 37 []].
Definition pomHost : Host :=
  {| getNodesByTag := λ content tag,
       if String.eqb content pomText && String.eqb tag "project"
       then [pomProject] else [];
     platform := "linux"; insertSpaces := true; tabSize := 2 |}.

(** A fragment without its project element. *)
Definition fragment : Document :=
  {| uri := "file:///demo/fragment.xml";
     text := "<dependencies></dependencies>" |}.

Definition starterWeb : IArtifact :=
  {| groupId := "org.springframework.boot";
     artifactId := "spring-boot-starter-web";
     version := None; scope := Some "compile" |}.
Definition cloudBom : IBom :=
  {| bom_groupId := "org.springframework.cloud";
     bom_artifactId := "spring-cloud-dependencies";
     bom_version := "2023.0.0"; bom_scope := Some "import";
     bom_type := Some "pom" |}.

(** The other two cases, on a pom with a dependencyManagement element,
    with and without its inner dependencies element. *)
Definition managedText : string :=
  "<project><dependencyManagement><dependencies></dependencies></dependencyManagement></project>".
Definition managed : Document :=
  {| uri := "file:///demo/pom.xml"; text := managedText |}.
Definition managedInner : Node := Element "dependencies" 31 59 [].
Definition managedMgmt : Node :=
  Element "dependencyManagement" 9 82 [managedInner].
Definition managedHost : Host :=
  {| getNodesByTag := λ _ _, [Element "project" 0 92 [managedMgmt]];
     platform := "linux"; insertSpaces := false; tabSize := 4 |}.

Definition bareMgmtText : string :=
  "<project><dependencyManagement></dependencyManagement></project>".
Definition bareMgmt : Document :=
  {| uri := "file:///demo/pom.xml"; text := bareMgmtText |}.
Definition bareMgmtNode : Node := Element "dependencyManagement" 9 53 [].
Definition bareMgmtHost : Host :=
  {| getNodesByTag := λ _ _, [Element "project" 0 63 [bareMgmtNode]];
     platform := "win32"; insertSpaces := false; tabSize := 4 |}.

End PatcherAids.

(** ** Step defaults and sample wizard states *)

Section StepsAids.
Import Wizard.

Implicit Types (cfg : Config) (st : State) (step : Step).

(** The default a step finds, caller-supplied before host-configured. *)
Definition presetLanguage cfg st : option string :=
  js_or (d_language (defaults (metadata st))) (defaultLanguage cfg).
Definition presetPackaging cfg st : option string :=
  js_or (d_packaging (defaults (metadata st))) (defaultPackaging cfg).

(** The state with [step] pushed on navigationStack. *)
Definition recorded step (st : State) : State :=
  on_metadata (λ m, set_pickSteps (pickSteps m ++ [step]) m) st.

(** A wizard that reached the artifact id after the boot version and
    the group id were answered. *)
Definition noDefaults : IDefaultProjectData :=
  {| d_language := None; d_packaging := None; d_artifactId := None;
     d_targetFolder := None; d_dependencies := None |}.

Definition atArtifactId : State :=
  {| metadata :=
       {| pickSteps := [SpecifyBootVersionStep; SpecifyGroupIdStep];
          defaults := noDefaults;
          serviceUrl := Some "https://start.spring.io";
          language := Some "java"; javaVersion := None;
          groupId := Some "com.example"; artifactId := None;
          packageName := None; packaging := None;
          bootVersion := Some "3.2.0" |};
     inputs := {| groupIdInput := Some "com.example";
                  artifactIdInput := Some "demo";
                  packageNameInput := None |} |}.

(** A fresh wizard whose caller preset the language and the packaging. *)
Definition presetDefaults : IDefaultProjectData :=
  {| d_language := Some "Java"; d_packaging := Some "JAR";
     d_artifactId := None; d_targetFolder := None; d_dependencies := None |}.

Definition fresh (d : IDefaultProjectData) : State :=
  {| metadata :=
       {| pickSteps := []; defaults := d; serviceUrl := None;
          language := None; javaVersion := None; groupId := None;
          artifactId := None; packageName := None; packaging := None;
          bootVersion := None |};
     inputs := {| groupIdInput := None; artifactIdInput := None;
                  packageNameInput := None |} |}.

Definition noConfig : Config :=
  {| defaultLanguage := None; defaultPackaging := None;
     defaultArtifactId := None |}.

(** The state after the input step [step] took [value]. *)
Definition answered step (value : string) (st : State) : State :=
  match step with
  | SpecifyGroupIdStep =>
      recorded step (on_inputs (set_groupIdInput (Some value))
                       (on_metadata (set_groupId (Some value)) st))
  | SpecifyArtifactIdStep =>
      recorded step (on_inputs (set_artifactIdInput (Some value))
                       (on_metadata (set_artifactId (Some value)) st))
  | SpecifyPackageNameStep =>
      recorded step (on_inputs (set_packageNameInput (Some value))
                       (on_metadata (set_packageName (Some value)) st))
  | _ => st
  end.

End StepsAids.

(** ** Ids and display lists *)

Section CatalogAids.
Import DependencyManager.

(** A string without a comma, as the ids of a catalog are. *)
Fixpoint no_comma (s : string) : bool :=
  match s with
  | EmptyString => true
  | String c s' => negb (Ascii.eqb c ",") && no_comma s'
  end.

(** The items of a display list that stand for a catalog entry. *)
Definition dependencyItems (items : list Item) : list Item :=
  List.filter (λ it, String.eqb (itemType it) "dependency") items.

(** The manager after the first display: the catalog is loaded when the
    manager holds none. *)
Definition loaded (fetched : list (option IDependency))
    (idList : option string) (m : t) : t :=
  if (length (dependencies m) =? 0)%nat then initialize fetched idList m else m.

(** The head of a display list: the last-used entry, when it is shown. *)
Definition lastUsedItems (hasLastSelected : option bool) (m : t) : list Item :=
  if (length (selectedIds m) =? 0)%nat then
    match hasLastSelected, lastselected m with
    | Some true, Some ls =>
        if truthy (Some ls) then option_list (genLastSelectedItem ls m) else []
    | _, _ => []
    end
  else [].

(** The selected entries under their separator. *)
Definition selectedItems (m : t) : list Item :=
  if (0 <? length (getSelectedDependencies m))%nat
  then newSeparator "Selected" :: map selectedItem (getSelectedDependencies m)
  else [].

(** A manager whose index agrees with its catalog. *)
Definition indexed (m : t) : Prop :=
  (∀ dep, dep ∈ dependencies m → dict m !! id dep = Some dep)
  ∧ (∀ k dep, dict m !! k = Some dep → dep ∈ dependencies m ∧ id dep = k).

(** The selection is the starters of the pom followed by additions that
    are new and distinct. *)
Definition additions (old : list string) (m : t) (rest : list string) : Prop :=
  selectedIds m = old ++ rest ∧ NoDup rest ∧ ∀ x, x ∈ rest → x ∉ old.

(** A manager that holds nothing but what the catalog [fetched] and the
    starters [old] of the pom gave it. *)
Definition catalogued (fetched : list (option IDependency))
    (old : list string) (m : t) : Prop :=
  (dependencies m = [] ∨ dependencies m = omap (λ d, d) fetched)
  ∧ (∀ dep, dep ∈ dependencies m → id dep ≠ "" → is_Some (dict m !! id dep))
  ∧ (∀ k dep, dict m !! k = Some dep → dep ∈ dependencies m ∧ id dep = k)
  ∧ dict m !! "" = None
  ∧ (∀ x, x ∈ selectedIds m →
       x ∈ old ∨ ∃ dep, dep ∈ dependencies m ∧ id dep = x).

End CatalogAids.

(** ** States of the dependencies step *)

Section DependenciesAids.
Import Wizard DependenciesStep.

(** The wizard state with [defaults.dependencies] replaced. *)
Definition with_dependencies (d : option (list string)) (st : State) : State :=
  on_metadata (λ md, set_defaults (set_d_dependencies d (defaults md)) md) st.

(** The wizard state with the top of navigationStack taken off. *)
Definition popped (st : State) : State :=
  on_metadata (λ md, set_pickSteps (removelast (pickSteps md)) md) st.

End DependenciesAids.

(** ** Alphabets of the identifier patterns *)

Section IdentifierAids.
Import Validation.

(** Every character of [s] is in the class [P]. *)
Fixpoint all_chars (P : ascii → bool) (s : string) : bool :=
  match s with
  | EmptyString => true
  | String c s' => P c && all_chars P s'
  end.

Fixpoint last_char (s : string) : option ascii :=
  match s with
  | EmptyString => None
  | String c EmptyString => Some c
  | String _ s' => last_char s'
  end.

(** Every character class of the pattern [r] lies within [P]. *)
Fixpoint classes_within (P : ascii → bool) (r : regex) : Prop :=
  match r with
  | Class p => ∀ c, p c = true → P c = true
  | Seq r1 r2 | Alt r1 r2 => classes_within P r1 ∧ classes_within P r2
  | Star r' => classes_within P r'
  | Empty | Eps => True
  end.

(** Every non-empty match of [r] ends in a character of [P]. *)
Fixpoint ends_within (P : ascii → bool) (r : regex) : Prop :=
  match r with
  | Class p => ∀ c, p c = true → P c = true
  | Seq r1 r2 =>
      ends_within P r2 ∧ (nullable r2 = true → ends_within P r1)
  | Alt r1 r2 => ends_within P r1 ∧ ends_within P r2
  | Star r' => ends_within P r'
  | Empty | Eps => True
  end.

(** [[a-z0-9_.]] and [[a-z0-9_-]] *)
Definition dotted_char (c : ascii) : bool :=
  lower_digit_us c || is_char "." c.
Definition dashed_char (c : ascii) : bool :=
  lower_digit_us c || is_char "-" c.
Definition not_dash (c : ascii) : bool := negb (is_char "-" c).

End IdentifierAids.

(** ** Blocks of lines *)

Section BlockAids.
Import Xml.

(** The lines [lines], each after the separator [sep], then [eol]. *)
Definition laid_out (sep eol : string) (lines : list string) : string :=
  fold_right (λ l acc, sep +:+ l +:+ acc) eol lines.

End BlockAids.

(** ** Sample runs of the selection prompts *)

Section PlacementAids.
Import Xml.

Implicit Types (doc : Document) (node : Node).

(** [s] holds no line feed. *)
Fixpoint one_line (s : string) : bool :=
  match s with
  | EmptyString => true
  | String c s' => negb (is_LF c) && one_line s'
  end.

(** A line cut at a column: [head] is the text up to the start of the
    line, [ws] the white space the line begins with, [body] the rest of
    the line up to the column, beginning with another character when it
    is not empty. *)
Definition line_cut (head ws body : string) : Prop :=
  (head = "" ∨ ∃ h, head = h +:+ EOL_LF)
  ∧ all_space ws = true
  ∧ one_line (ws +:+ body) = true
  ∧ (∀ c rest, body = String c rest → is_space c = false).

(** [node] starts where that line is cut. *)
Definition opens doc node (head ws body : string) : Prop :=
  line_cut head ws body
  ∧ (∃ tail, text doc = head +:+ ws +:+ body +:+ tail)
  ∧ startIndex node = Z.of_nat (String.length (head +:+ ws +:+ body)).

(** [node] ends in the closing tag of its name, which stands where that
    line is cut, [endIndex] being the index of the last character of the
    tag; [after] is the text past the tag. *)
Definition closes doc node (head ws body after : string) : Prop :=
  line_cut head ws body
  ∧ text doc
    = head +:+ ws +:+ body +:+ "</" +:+ name node +:+ ">" +:+ after
  ∧ endIndex node
    = Z.of_nat (String.length (head +:+ ws +:+ body)
                + String.length (name node) + 2).

(** [node] is written as one tag closed by a slash, which stands where
    that line is cut; [after] is the text past it. *)
Definition self_closed doc node (head ws body after : string) : Prop :=
  line_cut head ws body
  ∧ text doc
    = head +:+ ws +:+ body +:+ "<" +:+ name node +:+ "/>" +:+ after
  ∧ startIndex node = Z.of_nat (String.length (head +:+ ws +:+ body))
  ∧ endIndex node
    = Z.of_nat (String.length (head +:+ ws +:+ body)
                + String.length (name node) + 2).

(** The text once [block] is put before the closing tag [closing] of
    that line: at the start of the line when nothing but white space
    stands before the tag, right before the tag otherwise. *)
Definition placed (head ws body block closing after : string) : string :=
  head
  +:+ match body with
      | EmptyString => block +:+ ws
      | _ => ws +:+ body +:+ block
      end
  +:+ closing +:+ after.

(** No element among [nodes] is named [tag]. *)
Definition lacks (tag : string) (nodes : list Node) : Prop :=
  Forall (λ c, isTag c = true → name c ≠ tag) nodes.

(** [node] is the first element named [tag] among [nodes]. *)
Definition first_tag (tag : string) (nodes : list Node) (node : Node)
    : Prop :=
  ∃ before after,
    nodes = before ++ node :: after
    ∧ lacks tag before ∧ isTag node = true ∧ name node = tag.

(** A pom laid out on five lines, two spaces a level, and what the lexer
    reports for it. *)
Definition prettyText : string :=
  "<project>" +:+ EOL_LF
  +:+ "  <dependencies>" +:+ EOL_LF
  +:+ "  </dependencies>" +:+ EOL_LF
  +:+ "</project>".
Definition pretty : Document :=
  {| uri := "file:///demo/pom.xml"; text := prettyText |}.
Definition prettyDependencies : Node := Element "dependencies" 12 43 [].
Definition prettyProject : Node := Element "project" 0 54 [prettyDependencies].
Definition prettyHost : Host :=
  {| getNodesByTag := λ _ _, [prettyProject];
     platform := "linux"; insertSpaces := true; tabSize := 2 |}.

(** A pom whose dependencies element is written without a closing
    tag. *)
Definition emptyText : string :=
  "<project>" +:+ EOL_LF
  +:+ "  <dependencies/>" +:+ EOL_LF
  +:+ "</project>".
Definition empty : Document :=
  {| uri := "file:///demo/pom.xml"; text := emptyText |}.
Definition emptyDependencies : Node := Element "dependencies" 12 26 [].
Definition emptyProject : Node := Element "project" 0 37 [emptyDependencies].
Definition emptyHost : Host :=
  {| getNodesByTag := λ _ _, [emptyProject];
     platform := "linux"; insertSpaces := true; tabSize := 2 |}.

(** A pom whose dependencyManagement holds a dependencies element
    written without a closing tag. *)
Definition emptyManagedText : string :=
  "<project>" +:+ EOL_LF
  +:+ "  <dependencyManagement>" +:+ EOL_LF
  +:+ "    <dependencies/>" +:+ EOL_LF
  +:+ "  </dependencyManagement>" +:+ EOL_LF
  +:+ "</project>".
Definition emptyManaged : Document :=
  {| uri := "file:///demo/pom.xml"; text := emptyManagedText |}.
Definition emptyManagedInner : Node := Element "dependencies" 39 53 [].
Definition emptyManagedMgmt : Node :=
  Element "dependencyManagement" 12 79 [emptyManagedInner].
Definition emptyManagedProject : Node :=
  Element "project" 0 90 [emptyManagedMgmt].
Definition emptyManagedHost : Host :=
  {| getNodesByTag := λ _ _, [emptyManagedProject];
     platform := "linux"; insertSpaces := true; tabSize := 2 |}.

End PlacementAids.


Section RunAids.
Import DependencyManager.

Definition catalog : list (option IDependency) :=
  [Some web; None; Some jpa; Some jdbc].

(** A catalog entry that came without an id. *)
Definition blank : IDependency :=
  {| id := ""; name := "Unnamed"; group := "Web" |}.

(** An extension installed under /ext, paths joined with a slash. *)
Definition installed : Storage.Extension :=
  {| Storage.extensionPath := Some "/ext";
     Storage.path_join := λ a b, a +:+ "/" +:+ b |}.

(** The wizard before the dependencies step, the Java version answered
    last; the caller preset the web starter or nothing. *)
Definition beforeDependencies (given : option (list string))
    : DependenciesStep.World :=
  {| DependenciesStep.wizard :=
       {| Wizard.metadata :=
            {| Wizard.pickSteps :=
                 [Wizard.SpecifyBootVersionStep; Wizard.SpecifyJavaVersionStep];
               Wizard.defaults :=
                 {| Wizard.d_language := Some "Java";
                    Wizard.d_packaging := Some "JAR";
                    Wizard.d_artifactId := None;
                    Wizard.d_targetFolder := None;
                    Wizard.d_dependencies := given |};
               Wizard.serviceUrl := Some "https://start.spring.io";
               Wizard.language := Some "java";
               Wizard.javaVersion := Some "17";
               Wizard.groupId := Some "com.example";
               Wizard.artifactId := Some "demo";
               Wizard.packageName := Some "com.example.demo";
               Wizard.packaging := Some "jar";
               Wizard.bootVersion := Some "3.2.0" |};
          Wizard.inputs :=
            {| Wizard.groupIdInput := Some "com.example";
               Wizard.artifactIdInput := Some "demo";
               Wizard.packageNameInput := Some "com.example.demo" |} |};
     DependenciesStep.dependencies := None;
     DependenciesStep.files := ∅ |}.

End RunAids.

(** * Properties *)

(** ** Arrays *)

Lemma indexOf_range l x : -1 <= indexOf l x.
Proof.
  induction l as [|y l IH]; simpl; [lia|].
  destruct (String.eqb y x); [lia|].
  destruct (indexOf l x <? 0) eqn:E; lia.
Qed.

Lemma indexOf_found l x : 0 <= indexOf l x ↔ x ∈ l.
Proof.
  induction l as [|y l IH]; simpl.
  - split; [lia | intros H; inversion H].
  - destruct (String.eqb_spec y x) as [->|Hne].
    + split; [intros _; left | lia].
    + destruct (indexOf l x <? 0) eqn:E.
      * apply Z.ltb_lt in E. split; [lia|].
        intros [Hx|Hx]%elem_of_cons; [congruence|].
        apply IH in Hx. lia.
      * apply Z.ltb_ge in E. split; [|lia].
        intros _. right. by apply IH.
Qed.

Lemma indexOf_absent l x : indexOf l x < 0 ↔ x ∉ l.
Proof. rewrite <- indexOf_found. lia. Qed.

(** ** The dependency selector *)

Section Selection.
Import DependencyManager.

Implicit Types (x y : string) (l : list string) (m : t).

Lemma toggle_absent x l : x ∉ l → toggle x l = l ++ [x].
Proof.
  intros H. unfold toggle. apply indexOf_absent in H.
  destruct (Z.leb_spec 0 (indexOf l x)); [lia | done].
Qed.

Lemma toggle_present x l : x ∈ l → toggle x l = filter (λ y, y ≠ x) l.
Proof.
  intros H. unfold toggle. apply indexOf_found in H.
  destruct (Z.leb_spec 0 (indexOf l x)); [done | lia].
Qed.

Lemma filter_absent x l : x ∉ l → filter (λ y, y ≠ x) l = l.
Proof.
  induction l as [|z l IH]; [done|].
  intros [Hne Hl]%not_elem_of_cons.
  rewrite filter_cons_True by congruence. by rewrite IH.
Qed.

Lemma toggle_others x l :
  filter (λ y, y ≠ x) (toggle x l) = filter (λ y, y ≠ x) l.
Proof.
  destruct (decide (x ∈ l)) as [Hin|Hout].
  - rewrite toggle_present by done. apply filter_absent.
    rewrite list_elem_of_filter. intuition congruence.
  - rewrite toggle_absent by done.
    rewrite filter_app, filter_cons_False, filter_nil by intuition congruence.
    by rewrite app_nil_r.
Qed.

Lemma toggle_twice_elem x y l : y ∈ toggle x (toggle x l) ↔ y ∈ l.
Proof.
  destruct (decide (x ∈ l)) as [Hin|Hout].
  - rewrite (toggle_present x l) by done.
    rewrite toggle_absent
      by (rewrite list_elem_of_filter; intuition congruence).
    rewrite elem_of_app, list_elem_of_filter, list_elem_of_singleton.
    destruct (decide (y = x)); intuition congruence.
  - rewrite (toggle_absent x l) by done.
    rewrite toggle_present by (apply elem_of_app; right; left).
    rewrite filter_app, filter_cons_False, filter_nil by intuition congruence.
    by rewrite app_nil_r, filter_absent.
Qed.

Lemma toggle_NoDup x l : NoDup l → NoDup (toggle x l).
Proof.
  intros Hl. destruct (decide (x ∈ l)) as [Hin|Hout].
  - rewrite toggle_present by done. by apply NoDup_filter.
  - rewrite toggle_absent by done. apply NoDup_app. split; [done|].
    split; [|apply NoDup_singleton].
    intros z Hz Hx. apply list_elem_of_singleton in Hx. by subst.
Qed.

(** C7: toggling an id twice gives back the same selection set; one
    toggle appends an absent id at the end and removes a present id
    altogether; the ids that stay keep their order. *)
Theorem toggleDependency_twice x m :
  (∀ y, y ∈ selectedIds (toggleDependency x (toggleDependency x m))
        ↔ y ∈ selectedIds m)
  ∧ (x ∉ selectedIds m →
       selectedIds (toggleDependency x m) = selectedIds m ++ [x])
  ∧ (x ∈ selectedIds m →
       (x ∉ selectedIds (toggleDependency x m))
       ∧ (∀ y, y ≠ x →
            (y ∈ selectedIds (toggleDependency x m) ↔ y ∈ selectedIds m)))
  ∧ filter (λ y, y ≠ x) (selectedIds (toggleDependency x m))
    = filter (λ y, y ≠ x) (selectedIds m)
  ∧ (x ∈ selectedIds m →
       (selectedIds (toggleDependency x m)) `sublist_of` (selectedIds m))
  ∧ (x ∉ selectedIds m →
       selectedIds (toggleDependency x (toggleDependency x m)) = selectedIds m).
Proof.
  simpl. repeat split.
  - by apply toggle_twice_elem.
  - by apply toggle_twice_elem.
  - apply toggle_absent.
  - rewrite toggle_present by done. rewrite list_elem_of_filter. intuition congruence.
  - rewrite toggle_present by done. rewrite list_elem_of_filter. intuition congruence.
  - rewrite toggle_present by done. rewrite list_elem_of_filter. intuition congruence.
  - apply toggle_others.
  - intros Hin. rewrite toggle_present by done. apply sublist_filter.
  - intros Hout. rewrite (toggle_absent x (selectedIds m)) by done.
    rewrite toggle_present by (apply elem_of_app; right; left).
    rewrite filter_app, filter_cons_False, filter_nil by intuition congruence.
    by rewrite app_nil_r, filter_absent.
Qed.

(** C10: from the empty selection, no sequence of toggles leaves an id
    twice in [selectedIds]. *)
Theorem toggleDependency_NoDup (bootVersion : string) (xs : list string) :
  NoDup (selectedIds
           (fold_left (λ m x, toggleDependency x m) xs (create bootVersion))).
Proof.
  assert (∀ m, NoDup (selectedIds m) →
            NoDup (selectedIds (fold_left (λ m x, toggleDependency x m) xs m)))
    as H.
  { induction xs as [|x xs IH]; intros m Hm; [done|].
    simpl. apply IH. simpl. by apply toggle_NoDup. }
  apply H. simpl. constructor.
Qed.

Lemma unselectedStep_None ret dep :
  unselectedStep (None, ret) dep = (None, ret ++ [unselectedItem dep]).
Proof. done. Qed.

(** The local [group] never leaves undefined, so the loop only appends
    the entries. *)
Lemma unselectedLoop_entries deps ret :
  unselectedLoop deps ret = ret ++ map unselectedItem deps.
Proof.
  unfold unselectedLoop. revert ret.
  induction deps as [|dep deps IH]; intros ret; simpl.
  - by rewrite app_nil_r.
  - rewrite IH. unfold push. by rewrite <- app_assoc.
Qed.

Lemma unselectedLoop_no_separator deps :
  Forall (λ it, itemType it ≠ "separator") (unselectedLoop deps []).
Proof.
  rewrite unselectedLoop_entries. simpl.
  apply Forall_forall. intros it (dep & -> & _)%list_elem_of_fmap. done.
Qed.

(** C3: on a catalog whose entries change group from one to the next,
    with nothing selected, the display list is the selection summary
    followed by the entries, and holds no separator at the change. *)
Theorem getQuickPickItems_changing_groups :
  group web ≠ group jpa
  ∧ (getQuickPickItems [Some web; Some jpa; Some jdbc] None None
       (create "3.2.0")).1
    = [selectionItem []; unselectedItem web; unselectedItem jpa;
       unselectedItem jdbc]
  ∧ newSeparator (group jpa)
    ∉ (getQuickPickItems [Some web; Some jpa; Some jdbc] None None
         (create "3.2.0")).1.
Proof.
  split; [done|]. split; [vm_compute; done|].
  vm_compute. intros H.
  repeat (apply elem_of_cons in H; destruct H as [H|H]; [discriminate H|]).
  inversion H.
Qed.

End Selection.

(** ** Strings *)

Section Strings.
#[local] Arguments String.append !_ _ / : simpl nomatch.

Lemma length_append (a b : string) :
  String.length (a +:+ b) = (String.length a + String.length b)%nat.
Proof. induction a as [|c a IH]; simpl; [done | by rewrite IH]. Qed.

Lemma append_inj_r (s a b : string) : a +:+ s = b +:+ s → a = b.
Proof.
  revert b. induction a as [|c a IH]; intros [|d b] H; simpl in H.
  - done.
  - apply (f_equal String.length) in H. simpl in H.
    rewrite length_append in H. lia.
  - apply (f_equal String.length) in H. simpl in H.
    rewrite length_append in H. lia.
  - injection H as -> H. f_equal. by apply IH.
Qed.

Lemma append_inj_l (s a b : string) : s +:+ a = s +:+ b → a = b.
Proof. induction s as [|c s IH]; simpl; [done|]. intros [=]. auto. Qed.

Lemma append_assoc (a b c : string) : (a +:+ b) +:+ c = a +:+ b +:+ c.
Proof. induction a as [|x a IH]; simpl; [done | by rewrite IH]. Qed.

Lemma append_nil_r (a : string) : a +:+ "" = a.
Proof. induction a as [|x a IH]; simpl; [done | by rewrite IH]. Qed.
End Strings.

(** ** Rendering of the fragments *)

Section Rendering.
Import Xml.
#[local] Arguments String.append !_ _ / : simpl nomatch.

Implicit Types (a : IArtifact) (b : IBom) (indent : string).

Lemma toTextLine_lines a indent :
  toTextLine a indent
  = ["<dependency>"]
    ++ map (λ l, indent +:+ l)
         ([tagged "groupId" (groupId a); tagged "artifactId" (artifactId a)]
          ++ versionLines a ++ scopeLines a)
    ++ ["</dependency>"].
Proof.
  unfold toTextLine, versionLines, scopeLines, wrapWithParentNode.
  do 2 f_equal.
  unfold filterBoolean, js_and, of_opt, Boolean, tagged.
  destruct (version a) as [v|], (scope a) as [s|]; simpl.
  all: unfold Boolean.
  - destruct (String.eqb v "") eqn:Ev, (String.eqb s "") eqn:Es,
      (String.eqb s "compile") eqn:Ec;
      simpl; rewrite ?Ev, ?Es, ?Ec; simpl; rewrite ?Ev, ?Es, ?Ec; reflexivity.
  - destruct (String.eqb v "") eqn:Ev;
      simpl; rewrite ?Ev; simpl; rewrite ?Ev; reflexivity.
  - destruct (String.eqb s "") eqn:Es, (String.eqb s "compile") eqn:Ec;
      simpl; rewrite ?Es, ?Ec; simpl; rewrite ?Es, ?Ec; reflexivity.
  - reflexivity.
Qed.

Lemma tagged_inj tag body body' :
  tagged tag body = tagged tag body' → body = body'.
Proof.
  unfold tagged. intros H.
  do 3 apply append_inj_l in H. by apply append_inj_r in H.
Qed.

Lemma tagged_length tag body :
  String.length (tagged tag body)
  = (2 * String.length tag + String.length body + 5)%nat.
Proof. unfold tagged. rewrite !length_append. simpl. lia. Qed.

(** An indented element is neither bracket of the [dependency] block. *)
Lemma tagged_not_bracket indent tag body :
  (7 ≤ String.length tag)%nat →
  indent +:+ tagged tag body ≠ "<dependency>"
  ∧ indent +:+ tagged tag body ≠ "</dependency>".
Proof.
  intros Htag.
  split; intros H; apply (f_equal String.length) in H;
    rewrite length_append, tagged_length in H; simpl in H; lia.
Qed.

Lemma scope_not_bracket indent body :
  indent +:+ tagged "scope" body ≠ "<dependency>"
  ∧ indent +:+ tagged "scope" body ≠ "</dependency>".
Proof.
  split; intros H.
  - apply (f_equal String.length) in H.
    rewrite length_append, tagged_length in H. simpl in H. lia.
  - assert (H' := H). apply (f_equal String.length) in H'.
    rewrite length_append, tagged_length in H'. simpl in H'.
    assert (String.length indent = 0 ∧ String.length body = 0)%nat
      as [Hi Hb] by lia.
    destruct indent; [|discriminate Hi]. destruct body; [|discriminate Hb].
    discriminate H.
Qed.

Lemma in_versionLines a l :
  l ∈ versionLines a ↔ ∃ v, version a = Some v ∧ v ≠ "" ∧ l = tagged "version" v.
Proof.
  unfold versionLines. destruct (version a) as [v|].
  - destruct (String.eqb_spec v "") as [->|Hne].
    + split; [intros H; inversion H | intros (v & [= <-] & ? & _); done].
    + rewrite list_elem_of_singleton. split; [intros ->; eauto|].
      intros (v' & [= <-] & _ & ->). done.
  - split; [intros H; inversion H | intros (v & [=] & _)].
Qed.

Lemma in_scopeLines a l :
  l ∈ scopeLines a
  ↔ ∃ s, scope a = Some s ∧ s ≠ "" ∧ s ≠ "compile" ∧ l = tagged "scope" s.
Proof.
  unfold scopeLines. destruct (scope a) as [s|].
  - destruct (String.eqb_spec s "") as [->|Hne].
    { split; [intros H; inversion H | intros (s & [= <-] & ? & _); done]. }
    destruct (String.eqb_spec s "compile") as [->|Hne'].
    { split; [intros H; inversion H | intros (s & [= <-] & _ & ? & _); done]. }
    rewrite list_elem_of_singleton. split; [intros ->; eauto|].
    intros (s' & [= <-] & _ & _ & ->). done.
  - split; [intros H; inversion H | intros (s & [=] & _)].
Qed.

Lemma in_toTextLine a indent l :
  l ∈ toTextLine a indent
  ↔ l = "<dependency>" ∨ l = "</dependency>"
    ∨ l = indent +:+ tagged "groupId" (groupId a)
    ∨ l = indent +:+ tagged "artifactId" (artifactId a)
    ∨ (∃ v, version a = Some v ∧ v ≠ "" ∧ l = indent +:+ tagged "version" v)
    ∨ (∃ s, scope a = Some s ∧ s ≠ "" ∧ s ≠ "compile"
            ∧ l = indent +:+ tagged "scope" s).
Proof.
  rewrite toTextLine_lines.
  rewrite !elem_of_app, !list_elem_of_singleton, list_elem_of_fmap.
  split.
  - intros [->|[(x & -> & Hx)| ->]]; [tauto| |tauto].
    rewrite !elem_of_app, !elem_of_cons, in_versionLines, in_scopeLines in Hx.
    destruct Hx as [[->|[->|Hx]]|[(v & ? & ? & ->)|(s & ? & ? & ? & ->)]];
      [tauto|tauto|inversion Hx| |].
    + do 4 right. left. eauto.
    + do 5 right. eauto 6.
  - intros [->|[->|[->|[->|[(v & ? & ? & ->)|(s & ? & ? & ? & ->)]]]]];
      [tauto|tauto| | | |].
    all: right; left; eexists; split; [reflexivity|].
    all: rewrite !elem_of_app, !elem_of_cons, in_versionLines, in_scopeLines.
    + tauto.
    + tauto.
    + right. left. eauto.
    + right. right. eauto 6.
Qed.

(** C9: a rendered artifact always holds its groupId and artifactId
    elements, holds a version element exactly for the version it was
    given (a non-empty one), and a scope element exactly for the scope
    it was given, non-empty and other than compile; a rendered bom
    always holds groupId, artifactId, version, type pom and scope
    import. *)
Theorem rendered_elements a b indent :
  (indent +:+ tagged "groupId" (groupId a) ∈ toTextLine a indent)
  ∧ (indent +:+ tagged "artifactId" (artifactId a) ∈ toTextLine a indent)
  ∧ (∀ v, indent +:+ tagged "version" v ∈ toTextLine a indent
          ↔ version a = Some v ∧ v ≠ "")
  ∧ (∀ s, indent +:+ tagged "scope" s ∈ toTextLine a indent
          ↔ scope a = Some s ∧ s ≠ "" ∧ s ≠ "compile")
  ∧ bomToTextLine b indent
    = ["<dependency>";
       indent +:+ tagged "groupId" (bom_groupId b);
       indent +:+ tagged "artifactId" (bom_artifactId b);
       indent +:+ tagged "version" (bom_version b);
       indent +:+ "<type>pom</type>";
       indent +:+ "<scope>import</scope>";
       "</dependency>"].
Proof.
  split; [apply in_toTextLine; tauto|].
  split; [apply in_toTextLine; tauto|].
  split; [|split; [|reflexivity]].
  - intros v. rewrite in_toTextLine. split.
    + intros [H|[H|[H|[H|[(v' & Hv & Hne & H)|(s & _ & _ & _ & H)]]]]].
      * by apply (tagged_not_bracket indent "version" v) in H; [|simpl; lia].
      * by apply (tagged_not_bracket indent "version" v) in H; [|simpl; lia].
      * apply append_inj_l in H. discriminate H.
      * apply append_inj_l in H. discriminate H.
      * apply append_inj_l, tagged_inj in H. by subst.
      * apply append_inj_l in H. discriminate H.
    + intros [Hv Hne]. do 4 right. left. eauto.
  - intros s. rewrite in_toTextLine. split.
    + intros [H|[H|[H|[H|[(v & _ & _ & H)|(s' & Hs & Hne & Hc & H)]]]]].
      * by apply scope_not_bracket in H.
      * by apply scope_not_bracket in H.
      * apply append_inj_l in H. discriminate H.
      * apply append_inj_l in H. discriminate H.
      * apply append_inj_l in H. discriminate H.
      * apply append_inj_l, tagged_inj in H. by subst.
    + intros (Hs & Hne & Hc). do 5 right. eauto 6.
Qed.

End Rendering.

(** ** Positions and offsets of the host document *)

Section Documents.
Import Xml.

Lemma columnOffset_0 s : columnOffset s 0 = 0%nat.
Proof. by destruct s. Qed.

Lemma offsetAt_go_0 s ch : offsetAt_go s 0 ch = columnOffset s ch.
Proof. by destruct s. Qed.

(** [offsetAt] undoes [positionAt] inside the text. *)
Lemma offsetAt_positionAt_go s n :
  (n ≤ String.length s)%nat →
  offsetAt_go s (line (positionAt_go s n)) (character (positionAt_go s n)) = n.
Proof.
  revert n. induction s as [|c s IH]; intros [|n] Hn; simpl in Hn;
    try reflexivity; try lia.
  specialize (IH n ltac:(lia)). simpl.
  destruct (is_LF c) eqn:Ec; simpl; rewrite ?Ec.
  - by rewrite IH.
  - destruct (line (positionAt_go s n)) as [|k] eqn:Ek; simpl; rewrite ?Ec.
    + rewrite offsetAt_go_0 in IH. by rewrite IH.
    + by rewrite IH.
Qed.

(** The start of the line of [positionAt n] lies [character] before. *)
Lemma offsetAt_lineStart_go s n :
  (n ≤ String.length s)%nat →
  (offsetAt_go s (line (positionAt_go s n)) 0
   + character (positionAt_go s n) = n)%nat.
Proof.
  revert n. induction s as [|c s IH]; intros [|n] Hn; simpl in Hn;
    try reflexivity; try lia.
  specialize (IH n ltac:(lia)). simpl.
  destruct (is_LF c) eqn:Ec; simpl; rewrite ?Ec.
  - lia.
  - destruct (line (positionAt_go s n)) as [|k] eqn:Ek; simpl; rewrite ?Ec.
    + rewrite offsetAt_go_0, columnOffset_0 in IH. lia.
    + lia.
Qed.

Lemma substring_empty s n : substring n 0 s = "".
Proof.
  revert s. induction n as [|n IH]; intros [|c s]; simpl; try done.
Qed.

(** Where the insertion lands: at or before the closing tag of the
    parent, with nothing but white space in between. *)
Lemma insertPosition_before_closing_tag doc parentNode :
  0 ≤ closingTagOffset parentNode ≤ Z.of_nat (String.length (text doc)) →
  let o := offsetAt doc (insertPosition doc parentNode) in
  let c := Z.to_nat (closingTagOffset parentNode) in
  (o ≤ c)%nat ∧ all_space (substring o (c - o) (text doc)) = true.
Proof.
  intros Hc o c. subst o c. unfold insertPosition, getText, positionAt, offsetAt.
  set (n := Z.to_nat (closingTagOffset parentNode)).
  assert (n ≤ String.length (text doc))%nat as Hn by lia.
  pose proof (offsetAt_positionAt_go _ _ Hn) as H1.
  pose proof (offsetAt_lineStart_go _ _ Hn) as H2.
  simpl. rewrite H1.
  destruct (all_space _) eqn:E.
  - simpl. split; [lia|]. exact E.
  - rewrite H1. split; [lia|].
    replace (n - n)%nat with 0%nat by lia. by rewrite substring_empty.
Qed.

Lemma applyTextEdit_insert doc p newText :
  text (applyTextEdit doc (TextEdit_insert p newText))
  = substring 0 (offsetAt doc p) (text doc) +:+ newText
    +:+ substring (offsetAt doc p)
          (String.length (text doc) - offsetAt doc p) (text doc).
Proof. reflexivity. Qed.

End Documents.

(** ** Running a computation *)

Lemma bind_run {S A B} (c : M S A) (k : A → M S B) (s : S) :
  bind c k s
  = match c s with
    | (Ok a, s') => k a s'
    | (Throw e, s') => (Throw e, s')
    end.
Proof. reflexivity. Qed.

(** ** The pom.xml patcher *)

Section Patcher.
Import Xml.

Implicit Types (host : Host) (doc : Document) (deps : list IArtifact)
  (boms : list IBom).

(** Each call of [updateWorkspaceEdit] replaces what the edit held for
    the document by its own text edit. *)
Lemma updateWorkspaceEdit_overwrites host edit parentNode nodeToInsert doc :
  updateWorkspaceEdit host edit parentNode nodeToInsert doc
  = (Ok {| changes := Some (<[uri doc :=
             [TextEdit_insert (insertPosition doc parentNode)
                (blockText host doc parentNode
                   (getTextLines nodeToInsert (editorIndent host)))]]>
             (default ∅ (changes edit))) |}, doc).
Proof. reflexivity. Qed.

Lemma applyEdit_last doc (e1 e2 : list TextEdit)
    (ch : gmap string (list TextEdit)) :
  applyEdit {| changes := Some (<[uri doc := e2]> (<[uri doc := e1]> ch)) |} doc
  = (Ok tt, fold_left applyTextEdit e2 doc).
Proof.
  unfold applyEdit, modify. simpl. by rewrite lookup_insert_eq.
Qed.

Lemma getActiveProjectNode_run host doc :
  getActiveProjectNode host doc
  = match getNodesByTag host (text doc) XmlTagName.Project with
    | [projectNode] => (Ok projectNode, doc)
    | _ => (Throw (UserError
                     "Only support POM file with single <project> node."),
            doc)
    end.
Proof.
  unfold getActiveProjectNode. rewrite bind_run. unfold get.
  by destruct (getNodesByTag host (text doc) XmlTagName.Project)
    as [|x [|y l]].
Qed.

Lemma length_not_1 {A} (l : list A) :
  length l ≠ 1%nat → match l with [_] => False | _ => True end.
Proof. destruct l as [|x [|y l]]; simpl; done. Qed.

(** C4: when the lexer does not find exactly one project element (none
    or several), [updatePom] fails with the single-project error and the
    document keeps its text. *)
Theorem updatePom_without_single_project host deps boms doc :
  length (getNodesByTag host (text doc) XmlTagName.Project) ≠ 1%nat →
  updatePom host deps boms doc
  = (Throw (UserError "Only support POM file with single <project> node."),
     doc).
Proof.
  intros H. apply length_not_1 in H.
  unfold updatePom. rewrite bind_run, getActiveProjectNode_run.
  destruct (getNodesByTag host (text doc) XmlTagName.Project)
    as [|x [|y l]]; [reflexivity | contradiction | reflexivity].
Qed.

Lemma updatePom_with_boms host deps boms doc projectNode :
  getNodesByTag host (text doc) XmlTagName.Project = [projectNode] →
  boms ≠ [] →
  updatePom host deps boms doc
  = match findTag XmlTagName.DependencyManagement (children projectNode) with
    | Some depMgmtNode =>
        match findTag XmlTagName.Dependencies (children depMgmtNode) with
        | Some depsNodes =>
            (Ok tt, inserted host doc depsNodes
                      (getTextLines (BOMNodes boms None) (editorIndent host)))
        | None =>
            (Ok tt, inserted host doc depMgmtNode
                      (getTextLines (BOMNodes boms (Some ["dependencies"]))
                         (editorIndent host)))
        end
    | None =>
        (Ok tt, inserted host doc projectNode
                  (getTextLines
                     (BOMNodes boms
                        (Some ["dependencies"; "dependencyManagement"]))
                     (editorIndent host)))
    end.
Proof.
  intros Hp Hb.
  assert ((0 <? length boms)%nat = true) as Hlen
    by (destruct boms; [done | reflexivity]).
  unfold updatePom. rewrite bind_run, getActiveProjectNode_run, Hp.
  rewrite bind_run.
  destruct (findTag XmlTagName.Dependencies (children projectNode));
    rewrite updateWorkspaceEdit_overwrites, bind_run, Hlen;
    destruct (findTag XmlTagName.DependencyManagement (children projectNode))
      as [depMgmtNode|];
    try destruct (findTag XmlTagName.Dependencies (children depMgmtNode));
    rewrite updateWorkspaceEdit_overwrites; simpl;
    by rewrite applyEdit_last.
Qed.

Lemma updatePom_without_single_project_witness :
  length (getNodesByTag pomHost (text fragment) XmlTagName.Project) ≠ 1%nat
  ∧ updatePom pomHost [starterWeb] [cloudBom] fragment
    = (Throw (UserError "Only support POM file with single <project> node."),
       fragment).
Proof.
  split; [simpl; discriminate|].
  apply updatePom_without_single_project. simpl. discriminate.
Defined.

Example updatePom_two_projects :
  updatePom
    {| getNodesByTag := λ _ _, [pomProject; Element "project" 48 66 []];
       platform := "linux"; insertSpaces := true; tabSize := 2 |}
    [starterWeb] [cloudBom]
    {| uri := "file:///demo/pom.xml"; text := pomText +:+ "<project></project>" |}
  = (Throw (UserError "Only support POM file with single <project> node."),
     {| uri := "file:///demo/pom.xml"; text := pomText +:+ "<project></project>" |}).
Proof. reflexivity. Qed.

Example updatePom_bom_bare :
  updatePom managedHost [] [cloudBom] managed
  = (Ok tt, inserted managedHost managed managedInner
              (bomToTextLine cloudBom TAB)).
Proof. vm_compute. reflexivity. Qed.

Example updatePom_bom_one_wrap :
  updatePom bareMgmtHost [] [cloudBom] bareMgmt
  = (Ok tt, inserted bareMgmtHost bareMgmt bareMgmtNode
              (wrapWithParentNode (bomToTextLine cloudBom TAB) TAB
                 "dependencies")).
Proof. vm_compute. reflexivity. Qed.

(** C2: on a pom with one project element, given one artifact and one
    bom, the edit applied holds the bom block only: the artifact of the
    first insertion is nowhere in the resulting text. *)
Theorem updatePom_artifact_and_bom :
  updatePom pomHost [starterWeb] [cloudBom] pom
  = (Ok tt, inserted pomHost pom pomProject
              (getTextLines
                 (BOMNodes [cloudBom]
                    (Some ["dependencies"; "dependencyManagement"])) "  "))
  ∧ String.index 0 "spring-cloud-dependencies"
      (text (updatePom pomHost [starterWeb] [cloudBom] pom).2) = Some 175%nat
  ∧ String.index 0 "spring-boot-starter-web"
      (text (updatePom pomHost [starterWeb] [cloudBom] pom).2) = None
  ∧ String.index 0 "spring-boot-starter-web"
      (text (updatePom pomHost [starterWeb] [] pom).2) = Some 103%nat.
Proof. vm_compute. repeat split. Qed.

End Patcher.

(** ** Identifier validation *)

Section Identifiers.
Import Validation.
#[local] Arguments String.append !_ _ / : simpl nomatch.

Lemma append_empty s1 s2 : s1 +:+ s2 = "" → s1 = "" ∧ s2 = "".
Proof. destruct s1; simpl; [done | discriminate]. Qed.

Lemma append_cons s1 s2 c s :
  s1 +:+ s2 = String c s →
  (s1 = "" ∧ s2 = String c s) ∨ (∃ s1', s1 = String c s1' ∧ s = s1' +:+ s2).
Proof.
  destruct s1 as [|d s1]; simpl; [by left|].
  intros [= -> <-]. right. eauto.
Qed.

Lemma matches_eps_inv s : matches Eps s → s = "".
Proof. by inversion 1. Qed.

Lemma matches_class_inv p s :
  matches (Class p) s → ∃ c, s = String c "" ∧ p c = true.
Proof. inversion 1; subst; eauto. Qed.

Lemma matches_seq_inv r1 r2 s :
  matches (Seq r1 r2) s →
  ∃ s1 s2, s = s1 +:+ s2 ∧ matches r1 s1 ∧ matches r2 s2.
Proof. inversion 1; subst; eauto. Qed.

Lemma matches_alt_inv r1 r2 s :
  matches (Alt r1 r2) s → matches r1 s ∨ matches r2 s.
Proof. inversion 1; subst; auto. Qed.

Lemma nullable_matches r : nullable r = true ↔ matches r "".
Proof.
  induction r as [| |p|r1 IH1 r2 IH2|r1 IH1 r2 IH2|r IH]; simpl.
  - split; [discriminate | inversion 1].
  - split; [constructor | done].
  - split; [discriminate | inversion 1].
  - rewrite andb_true_iff, IH1, IH2. split.
    + intros [H1 H2]. by apply (matches_seq r1 r2 "" "").
    + intros (s1 & s2 & E & H1 & H2)%matches_seq_inv.
      symmetry in E. apply append_empty in E as [-> ->]. done.
  - rewrite orb_true_iff, IH1, IH2. split.
    + intros [H|H]; [by apply matches_alt_l | by apply matches_alt_r].
    + apply matches_alt_inv.
  - split; [constructor | done].
Qed.

Lemma star_cons_inv r c s :
  matches (Star r) (String c s) →
  ∃ s1 s2, s = s1 +:+ s2 ∧ matches r (String c s1) ∧ matches (Star r) s2.
Proof.
  intros H. remember (Star r) as r' eqn:Er. remember (String c s) as s' eqn:Es.
  induction H as [| | | | | |r0 s1 s2 H1 _ H2 IH2]; try discriminate.
  injection Er as ->.
  apply append_cons in Es as [[-> ->]|(s1' & -> & ->)].
  - by apply IH2.
  - eauto.
Qed.

Lemma deriv_matches r c s : matches (deriv c r) s ↔ matches r (String c s).
Proof.
  revert s. induction r as [| |p|r1 IH1 r2 IH2|r1 IH1 r2 IH2|r IH]; intros s; simpl.
  - split; inversion 1.
  - split; inversion 1.
  - destruct (p c) eqn:Ep.
    + split.
      * intros ->%matches_eps_inv. by constructor.
      * intros (d & [= <- ->] & _)%matches_class_inv. constructor.
    + split; [inversion 1|].
      intros (d & [= <- ->] & ?)%matches_class_inv. congruence.
  - destruct (nullable r1) eqn:En.
    + split.
      * intros [(s1 & s2 & -> & Ha & Hb)%matches_seq_inv|H2]%matches_alt_inv.
        -- apply IH1 in Ha. by apply (matches_seq r1 r2 (String c s1) s2).
        -- apply IH2 in H2. apply nullable_matches in En.
           by apply (matches_seq r1 r2 "" (String c s)).
      * intros (s1 & s2 & E & Ha & Hb)%matches_seq_inv. symmetry in E.
        apply append_cons in E as [[-> ->]|(s1' & -> & ->)].
        -- apply matches_alt_r. by apply IH2.
        -- apply matches_alt_l. apply matches_seq; [by apply IH1 | done].
    + split.
      * intros (s1 & s2 & -> & Ha & Hb)%matches_seq_inv.
        apply IH1 in Ha. by apply (matches_seq r1 r2 (String c s1) s2).
      * intros (s1 & s2 & E & Ha & Hb)%matches_seq_inv. symmetry in E.
        apply append_cons in E as [[-> ->]|(s1' & -> & ->)].
        -- apply nullable_matches in Ha. congruence.
        -- apply matches_seq; [by apply IH1 | done].
  - split.
    + intros [H|H]%matches_alt_inv;
        [apply matches_alt_l; by apply IH1 | apply matches_alt_r; by apply IH2].
    + intros [H|H]%matches_alt_inv;
        [apply matches_alt_l; by apply IH1 | apply matches_alt_r; by apply IH2].
  - split.
    + intros (s1 & s2 & -> & Ha & Hb)%matches_seq_inv.
      apply IH in Ha. by apply (matches_star_cons r (String c s1) s2).
    + intros (s1 & s2 & -> & Ha & Hb)%star_cons_inv.
      apply matches_seq; [by apply IH | done].
Qed.

(** The matcher by derivatives decides whole-string matching. *)
Lemma test_matches r s : test r s = true ↔ matches r s.
Proof.
  revert r. induction s as [|c s IH]; intros r; simpl.
  - apply nullable_matches.
  - rewrite IH. apply deriv_matches.
Qed.

Example groupId_accepted : groupIdValidation "com.example" = None.
Proof. reflexivity. Qed.

Example groupId_rejected :
  groupIdValidation "com..example" = Some "Invalid Group Id"
  ∧ groupIdValidation "Com.Example" = Some "Invalid Group Id"
  ∧ groupIdValidation "" = Some "Invalid Group Id".
Proof. repeat split. Qed.

Example artifactId_accepted : artifactIdValidation "demo-app" = None.
Proof. reflexivity. Qed.

Example artifactId_rejected :
  artifactIdValidation "My Project!" = Some "Invalid Artifact Id"
  ∧ artifactIdValidation "demo-" = Some "Invalid Artifact Id"
  ∧ artifactIdValidation "demo-1" = Some "Invalid Artifact Id".
Proof. repeat split. Qed.

Example packageName_rejected :
  packageNameValidation "com.example.Demo" = Some "Invalid Package Name"
  ∧ packageNameValidation "com.example.demo" = None.
Proof. repeat split. Qed.

End Identifiers.

(** ** The wizard steps *)

Section Steps.
Import Wizard.

Implicit Types (cfg : Config) (st : State) (step : Step).

Lemma pickSteps_recorded step st :
  pickSteps (metadata (recorded step st)) = pickSteps (metadata st) ++ [step].
Proof. reflexivity. Qed.

Lemma specifyLanguage_run cfg selected st :
  specifyLanguage cfg selected st
  = if truthy (presetLanguage cfg st)
    then (Ok true,
          on_metadata (set_language (toLowerCase <$> presetLanguage cfg st)) st)
    else createPickBox SpecifyLanguageStep selected st.
Proof.
  unfold specifyLanguage, presetLanguage. rewrite bind_run. unfold get.
  by destruct (truthy _).
Qed.

Lemma specifyPackaging_run cfg selected st :
  specifyPackaging cfg selected st
  = if truthy (presetPackaging cfg st)
    then (Ok true,
          on_metadata (set_packaging (toLowerCase <$> presetPackaging cfg st)) st)
    else createPickBox SpecifyPackagingStep selected st.
Proof.
  unfold specifyPackaging, presetPackaging. rewrite bind_run. unfold get.
  by destruct (truthy _).
Qed.

(** C1, as stated, fails in scenario D: the group id step is on top of
    the stack, the artifact id prompt is dismissed, and [execute] throws
    instead of handing back the group id step. *)
Lemma artifactId_dismissed_after_groupId :
  last (pickSteps (metadata atArtifactId)) = Some SpecifyGroupIdStep
  ∧ executeArtifactId None atArtifactId
    = (Throw (OperationCanceledError "ArtifactId not specified."),
       atArtifactId)
  ∧ (executeArtifactId None atArtifactId).1 ≠ Ok (Some SpecifyGroupIdStep).
Proof. repeat split. discriminate. Qed.

(** C1, amended: a dismissed prompt of a step that requires a value
    signals cancellation whatever navigationStack holds, and leaves the
    descriptor and the stack as they were; this holds for the artifact
    id step, for the boot version step, for the language and packaging
    steps when they prompt, and for the prompts of the group id, package
    name and Java version steps. *)
Theorem dismissed_prompt_cancels cfg st :
  executeArtifactId None st
  = (Throw (OperationCanceledError "ArtifactId not specified."), st)
  ∧ executeBootVersion None st
    = (Throw (OperationCanceledError "BootVersion not specified."), st)
  ∧ (truthy (presetLanguage cfg st) = false →
     executeLanguage cfg None st
     = (Throw (OperationCanceledError "Language not specified."), st))
  ∧ (truthy (presetPackaging cfg st) = false →
     executePackaging cfg None st
     = (Throw (OperationCanceledError "Packaging not specified."), st))
  ∧ createInputBox SpecifyGroupIdStep None st
    = (Throw (OperationCanceledError "GroupId not specified."), st)
  ∧ createInputBox SpecifyPackageNameStep None st
    = (Throw (OperationCanceledError "PackageName not specified."), st)
  ∧ createPickBox SpecifyJavaVersionStep None st
    = (Throw (OperationCanceledError "Java version not specified."), st).
Proof.
  split; [reflexivity|]. split; [reflexivity|].
  split; [|split; [|repeat split]].
  - intros H. unfold executeLanguage, executeWith.
    by rewrite bind_run, specifyLanguage_run, H.
  - intros H. unfold executePackaging, executeWith.
    by rewrite bind_run, specifyPackaging_run, H.
Qed.

(** C5, as stated, fails: with a preset language the language step
    completes and hands over to the group id step, yet navigationStack
    stays empty: one step completed, none recorded. *)
Lemma language_preset_not_recorded :
  (executeLanguage noConfig None (fresh presetDefaults)).1
  = Ok (Some SpecifyGroupIdStep)
  ∧ language (metadata (executeLanguage noConfig None (fresh presetDefaults)).2)
    = Some "java"
  ∧ pickSteps (metadata (executeLanguage noConfig None (fresh presetDefaults)).2)
    = []
  ∧ length (pickSteps
              (metadata (executeLanguage noConfig None (fresh presetDefaults)).2))
    ≠ 1%nat.
Proof. repeat split. discriminate. Qed.

(** C5, amended: a language or packaging step that finds a default
    (the caller's before the host's) completes without prompting: it
    writes the lower-cased default into the descriptor, returns the
    next step and leaves navigationStack as it was. *)
Theorem preset_step_leaves_stack cfg selected st :
  (truthy (presetLanguage cfg st) = true →
   executeLanguage cfg selected st
   = (Ok (Some SpecifyGroupIdStep),
      on_metadata (set_language (toLowerCase <$> presetLanguage cfg st)) st)
   ∧ pickSteps (metadata (executeLanguage cfg selected st).2)
     = pickSteps (metadata st))
  ∧ (truthy (presetPackaging cfg st) = true →
     executePackaging cfg selected st
     = (Ok (Some SpecifyJavaVersionStep),
        on_metadata (set_packaging (toLowerCase <$> presetPackaging cfg st)) st)
     ∧ pickSteps (metadata (executePackaging cfg selected st).2)
       = pickSteps (metadata st)).
Proof.
  split; intros H.
  - assert (executeLanguage cfg selected st
            = (Ok (Some SpecifyGroupIdStep),
               on_metadata
                 (set_language (toLowerCase <$> presetLanguage cfg st)) st))
      as E.
    { unfold executeLanguage, executeWith.
      by rewrite bind_run, specifyLanguage_run, H. }
    by rewrite E.
  - assert (executePackaging cfg selected st
            = (Ok (Some SpecifyJavaVersionStep),
               on_metadata
                 (set_packaging (toLowerCase <$> presetPackaging cfg st)) st))
      as E.
    { unfold executePackaging, executeWith.
      by rewrite bind_run, specifyPackaging_run, H. }
    by rewrite E.
Qed.

Lemma preset_step_leaves_stack_witness :
  truthy (presetLanguage noConfig (fresh presetDefaults)) = true
  ∧ truthy (presetPackaging noConfig (fresh presetDefaults)) = true
  ∧ pickSteps (metadata (executeLanguage noConfig None (fresh presetDefaults)).2)
    = []
  ∧ pickSteps (metadata (executePackaging noConfig None (fresh presetDefaults)).2)
    = [].
Proof.
  split; [reflexivity|]. split; [reflexivity|].
  split.
  - apply (proj1 (preset_step_leaves_stack noConfig None (fresh presetDefaults))
             eq_refl).
  - apply (proj2 (preset_step_leaves_stack noConfig None (fresh presetDefaults))
             eq_refl).
Defined.

(** C6, as stated, fails: an artifact id the pattern rejects is written
    into the descriptor, the step is recorded and the wizard moves on to
    the package name. *)
Lemma malformed_artifactId_accepted :
  Validation.artifactIdValidation "My Project!" = Some "Invalid Artifact Id"
  ∧ (executeArtifactId (Some "My Project!") atArtifactId).1
    = Ok (Some SpecifyPackageNameStep)
  ∧ artifactId
      (metadata (executeArtifactId (Some "My Project!") atArtifactId).2)
    = Some "My Project!"
  ∧ pickSteps
      (metadata (executeArtifactId (Some "My Project!") atArtifactId).2)
    = [SpecifyBootVersionStep; SpecifyGroupIdStep; SpecifyArtifactIdStep].
Proof. repeat split. Qed.

(** C6, amended: the prompt of the group id, artifact id and package
    name steps takes any value the user enters, whether or not the
    validators accept it: the value is written into the descriptor and
    kept as the default input, the step is recorded on navigationStack,
    and the artifact id step advances to the package name step. *)
Theorem input_taken_unvalidated (value : string) st :
  createInputBox SpecifyGroupIdStep (Some value) st
  = (Ok true, answered SpecifyGroupIdStep value st)
  ∧ createInputBox SpecifyArtifactIdStep (Some value) st
    = (Ok true, answered SpecifyArtifactIdStep value st)
  ∧ createInputBox SpecifyPackageNameStep (Some value) st
    = (Ok true, answered SpecifyPackageNameStep value st)
  ∧ executeArtifactId (Some value) st
    = (Ok (Some SpecifyPackageNameStep),
       answered SpecifyArtifactIdStep value st)
  ∧ groupId (metadata (answered SpecifyGroupIdStep value st)) = Some value
  ∧ artifactId (metadata (answered SpecifyArtifactIdStep value st)) = Some value
  ∧ packageName (metadata (answered SpecifyPackageNameStep value st))
    = Some value
  ∧ (∀ step, step = SpecifyGroupIdStep ∨ step = SpecifyArtifactIdStep
             ∨ step = SpecifyPackageNameStep →
       pickSteps (metadata (answered step value st))
       = pickSteps (metadata st) ++ [step]).
Proof.
  repeat split.
  intros step [->|[->| ->]]; reflexivity.
Qed.

End Steps.


(** ** The catalog and the last used selection *)

Section Catalog.
Import DependencyManager.
#[local] Arguments String.append !_ _ / : simpl nomatch.

Implicit Types (m : t) (dep : IDependency) (l : list string).

Lemma fold_left_snoc {A B} (f : A → B → A) (l : list B) (x : B) (a : A) :
  fold_left f (l ++ [x]) a = f (fold_left f l a) x.
Proof. by rewrite fold_left_app. Qed.

Lemma last_filter_snoc {A} (P : A → Prop) `{∀ x, Decision (P x)}
    (l : list A) (x : A) :
  last (filter P (l ++ [x])) = if decide (P x) then Some x else last (filter P l).
Proof.
  rewrite filter_app. destruct (decide (P x)) as [Hx|Hx].
  - rewrite filter_cons_True, filter_nil by done. by rewrite last_snoc.
  - rewrite filter_cons_False, filter_nil by done. by rewrite app_nil_r.
Qed.

Lemma truthy_Some (s : string) : truthy (Some s) = true ↔ s ≠ "".
Proof.
  simpl. destruct (String.eqb_spec s ""); simpl; split; congruence.
Qed.

(** What the loop of [initialize] leaves under a key. *)
Lemma index_lookup (deps : list IDependency) (d : gmap string IDependency)
    (k : string) :
  fold_left (λ (d : gmap string IDependency) dep,
               if truthy (Some (id dep)) then <[id dep := dep]> d else d)
            deps d !! k
  = if decide (k = "") then d !! k
    else match last (filter (λ dep, id dep = k) deps) with
         | Some dep => Some dep
         | None => d !! k
         end.
Proof.
  induction deps as [|dep deps IH] using rev_ind.
  - simpl. by destruct (decide (k = "")).
  - rewrite fold_left_snoc, last_filter_snoc.
    destruct (truthy (Some (id dep))) eqn:Et.
    + apply truthy_Some in Et.
      destruct (decide (id dep = k)) as [<-|Hne].
      * rewrite lookup_insert_eq. by destruct (decide (id dep = "")).
      * by rewrite lookup_insert_ne.
    + assert (id dep = "") as E0.
      { destruct (String.eqb_spec (id dep) ""); [done|].
        simpl in Et. destruct (String.eqb_spec (id dep) ""); done. }
      rewrite IH. destruct (decide (k = "")) as [->|Hk]; [done|].
      destruct (decide (id dep = k)); [congruence | done].
Qed.

(** X1: loading a catalog into a fresh manager keeps the defined entries
    in order and indexes no entry under the empty id; looking up the id,
    when not empty, of any entry of the catalog finds the last entry of
    the catalog that carries it; and a key that is no id of the catalog
    finds nothing, the names every object inherits set apart. *)
Theorem initialize_index (fetched : list (option IDependency))
    (idList : option string) (bootVersion : string) :
  let m := initialize fetched idList (create bootVersion) in
  dependencies m = omap (λ d, d) fetched
  ∧ dict m !! "" = None
  ∧ (∀ dep, dep ∈ dependencies m → id dep ≠ "" →
       is_Some (dict m !! id dep)
       ∧ dict m !! id dep
         = last (filter (λ d, id d = id dep) (dependencies m)))
  ∧ (∀ k, k ∉ inherited → "__proto__" ∉ map id (dependencies m) →
       k ∉ map id (dependencies m) → dict m !! k = None)
  ∧ lastselected m = idList.
Proof.
  simpl. split; [done|].
  split; [by rewrite index_lookup|].
  split; [|split; [|done]].
  - intros dep Hdep Hid. rewrite index_lookup, decide_False by done.
    destruct (last _) as [dep'|] eqn:El; [by split; [eexists|]|].
    apply last_None in El.
    assert (dep ∈ filter (λ d, id d = id dep) (omap (λ d, d) fetched))
      as Hin by (by apply list_elem_of_filter).
    rewrite El in Hin. by apply elem_of_nil in Hin.
  - intros k _ _ Hk. rewrite index_lookup, lookup_empty.
    destruct (decide (k = "")); [done|].
    destruct (last _) as [dep'|] eqn:El; [|done].
    apply last_Some in El as (l' & El).
    assert (dep' ∈ filter (λ dep, id dep = k) (omap (λ d, d) fetched))
      as Hin.
    { rewrite El. apply elem_of_app. right. left. }
    apply list_elem_of_filter in Hin as [<- Hin].
    exfalso. apply Hk. by apply (list_elem_of_fmap_2 id).
Qed.

Lemma split_comma_nonempty s : split_comma s ≠ [].
Proof.
  destruct s as [|c s]; simpl; [done|].
  destruct (Ascii.eqb c ","); [done|]. by destruct (split_comma s).
Qed.

Lemma split_comma_no_comma s : Forall (λ w, no_comma w = true) (split_comma s).
Proof.
  induction s as [|c s IH]; simpl; [by repeat constructor|].
  destruct (Ascii.eqb c ",") eqn:Ec; [by constructor|].
  pose proof (split_comma_nonempty s) as Hne.
  destruct (split_comma s) as [|w ws]; [done|].
  inversion IH as [|? ? Hw Hws]; subst. constructor; [|done].
  simpl. by rewrite Ec, Hw.
Qed.

(** Joining what [split] gave returns the string. *)
Lemma join_split_comma s : join "," (split_comma s) = s.
Proof.
  induction s as [|c s IH]; simpl; [done|].
  destruct (Ascii.eqb_spec c ",") as [->|Hc].
  - pose proof (split_comma_nonempty s) as Hne.
    destruct (split_comma s) as [|w ws]; [done|].
    change (join "," ("" :: w :: ws)) with ("," +:+ join "," (w :: ws)).
    by rewrite IH.
  - pose proof (split_comma_nonempty s) as Hne.
    destruct (split_comma s) as [|w ws]; [done|].
    destruct ws as [|w' ws]; simpl in *; by rewrite <- IH.
Qed.

Lemma split_comma_no_comma_id w : no_comma w = true → split_comma w = [w].
Proof.
  induction w as [|c w IH]; simpl; [done|].
  intros [Hc Hw]%andb_true_iff. apply negb_true_iff in Hc. rewrite Hc.
  by rewrite IH.
Qed.

Lemma split_comma_app w s :
  no_comma w = true → split_comma (w +:+ "," +:+ s) = w :: split_comma s.
Proof.
  induction w as [|c w IH]; simpl in *; [done|].
  intros [Hc Hw]%andb_true_iff. apply negb_true_iff in Hc. rewrite Hc.
  by rewrite IH.
Qed.

(** Splitting a joined list of ids returns the ids. *)
Lemma split_comma_join l :
  l ≠ [] → Forall (λ w, no_comma w = true) l → split_comma (join "," l) = l.
Proof.
  induction l as [|w l IH]; [done|]. intros _ Hl.
  inversion Hl as [|? ? Hw Hl']; subst.
  destruct l as [|w' l].
  - simpl. by apply split_comma_no_comma_id.
  - change (join "," (w :: w' :: l)) with (w +:+ "," +:+ join "," (w' :: l)).
    rewrite split_comma_app by done. by rewrite IH.
Qed.

Lemma filter_all {A} (P : A → Prop) `{∀ x, Decision (P x)} (l : list A) :
  Forall P l → filter P l = l.
Proof.
  induction 1 as [|x l Hx _ IH]; [done|].
  by rewrite filter_cons_True, IH.
Qed.

(** X2: the last-used entry gives back a persisted selection: for a
    non-empty selection of comma-free ids the catalog knows, the entry
    built from the id list of its summary carries that same id list and
    the names of the selected entries. *)
Theorem lastUsed_of_selection m l :
  l ≠ [] →
  Forall (λ x, no_comma x = true) l →
  Forall (λ x, is_Some (dict m !! x)) l →
  genLastSelectedItem (item_id (selectionItem l)) m
  = Some {| description :=
              Some (join ", " (omap (λ x, name <$> dict m !! x) l));
            item_id := item_id (selectionItem l);
            itemType := "lastUsed";
            label := "$(clock) Last used" |}.
Proof.
  intros Hne Hc Hk. unfold genLastSelectedItem. simpl.
  rewrite split_comma_join, filter_all by done.
  destruct (omap _ l) as [|n ns] eqn:En; [|done].
  destruct l as [|x l]; [done|]. simpl in En.
  inversion Hk as [|? ? [dep Hx] _]; subst. by rewrite Hx in En.
Qed.

Lemma omap_name_length m l :
  Forall (λ x, is_Some (dict m !! x)) l →
  length (omap (λ x, name <$> dict m !! x) l) = length l.
Proof.
  induction 1 as [|x l [dep Hx] _ IH]; [done|].
  simpl. rewrite Hx, <- IH. done.
Qed.

(** X3: ids of the history that the index no longer knows are dropped
    from the last-used entry; the entry is missing exactly when none of
    them is known, and the ids it carries are the known ids of the
    history, in the order of the history. This is for a history that
    holds none of the names every object inherits, and an index nothing
    was stored in under the name that stands for the prototype. *)
Theorem lastUsed_known_ids m (idList : string) :
  Forall (λ x, x ∉ inherited) (split_comma idList) →
  dict m !! "__proto__" = None →
  (genLastSelectedItem idList m = None
   ↔ ∀ x, x ∈ split_comma idList → dict m !! x = None)
  ∧ (∀ item, genLastSelectedItem idList m = Some item →
       itemType item = "lastUsed"
       ∧ split_comma (item_id item)
         = filter (λ x, is_Some (dict m !! x)) (split_comma idList)
       ∧ Forall (λ x, is_Some (dict m !! x)) (split_comma (item_id item))).
Proof.
  intros _ _. unfold genLastSelectedItem.
  set (avail := filter (λ x, is_Some (dict m !! x)) (split_comma idList)).
  assert (Forall (λ x, is_Some (dict m !! x)) avail) as Hk.
  { apply Forall_forall. intros x [? ?]%list_elem_of_filter. done. }
  assert (Forall (λ x, no_comma x = true) avail) as Hc.
  { apply Forall_forall. intros x [_ Hx]%list_elem_of_filter.
    pose proof (split_comma_no_comma idList) as Hall.
    rewrite Forall_forall in Hall. by apply Hall. }
  pose proof (omap_name_length m avail Hk) as Hlen.
  destruct (omap _ avail) as [|n ns] eqn:En; simpl.
  - assert (avail = []) as E0 by (destruct avail; [done | discriminate Hlen]).
    split; [|intros item [=]]. split; [|done]. intros _ x Hx.
    destruct (dict m !! x) as [dep|] eqn:Ex; [|done].
    assert (x ∈ avail) as Hin by (apply list_elem_of_filter; eauto).
    rewrite E0 in Hin. inversion Hin.
  - assert (avail ≠ []) as Hne by (intros E0; by rewrite E0 in Hlen).
    split.
    + split; [done|]. intros Hall.
      assert (∀ x, x ∈ avail → False) as Hav.
      { intros x [[dep Hx] Hin]%list_elem_of_filter.
        rewrite (Hall x Hin) in Hx. discriminate Hx. }
      destruct avail as [|x xs]; [done|]. exfalso. apply (Hav x). left.
    + intros item [= <-]. simpl. rewrite split_comma_join by done. done.
Qed.

End Catalog.


(** ** The display list *)

Section Display.
Import DependencyManager.

Implicit Types (m : t) (dep : IDependency) (items : list Item).

Lemma unselected_part deps (ret : list Item) :
  (if (0 <? length deps)%nat then unselectedLoop deps ret else ret)
  = ret ++ map unselectedItem deps.
Proof.
  destruct deps as [|d ds]; [by rewrite app_nil_r|].
  by rewrite unselectedLoop_entries.
Qed.

Lemma getQuickPickItems_parts fetched idList hasLastSelected m :
  getQuickPickItems fetched idList hasLastSelected m
  = (lastUsedItems hasLastSelected (loaded fetched idList m)
       ++ selectionItem (selectedIds (loaded fetched idList m))
          :: selectedItems (loaded fetched idList m)
       ++ map unselectedItem
            (getUnselectedDependencies (loaded fetched idList m)),
     loaded fetched idList m).
Proof.
  unfold getQuickPickItems. fold (loaded fetched idList m).
  set (m' := loaded fetched idList m). f_equal.
  rewrite unselected_part. unfold selectedItems, push.
  set (front := if (length (selectedIds m') =? 0)%nat then _ else _).
  assert (front = lastUsedItems hasLastSelected m') as ->.
  { subst front. unfold lastUsedItems.
    destruct (length (selectedIds m') =? 0)%nat; [|done].
    by destruct hasLastSelected as [[|]|], (lastselected m') as [ls|]. }
  destruct (0 <? length (getSelectedDependencies m'))%nat;
    by rewrite <- ?app_assoc.
Qed.

Lemma selectedIds_loaded fetched idList m :
  selectedIds (loaded fetched idList m) = selectedIds m.
Proof. unfold loaded. by destruct (length (dependencies m) =? 0)%nat. Qed.

Lemma lastUsedItems_kind hasLastSelected m :
  Forall (λ it, itemType it = "lastUsed") (lastUsedItems hasLastSelected m).
Proof.
  unfold lastUsedItems.
  destruct (length (selectedIds m) =? 0)%nat; [|constructor].
  destruct hasLastSelected as [[|]|], (lastselected m) as [ls|];
    try constructor.
  destruct (truthy (Some ls)); [|constructor].
  unfold genLastSelectedItem. destruct (negb _); repeat constructor.
Qed.

Lemma filter_kind_all (ty : string) items :
  Forall (λ it, itemType it = ty) items →
  List.filter (λ it, String.eqb (itemType it) ty) items = items.
Proof.
  induction 1 as [|it items Hit _ IH]; [done|].
  simpl. by rewrite Hit, String.eqb_refl, IH.
Qed.

Lemma filter_kind_none (ty ty' : string) items :
  ty ≠ ty' →
  Forall (λ it, itemType it = ty) items →
  List.filter (λ it, String.eqb (itemType it) ty') items = [].
Proof.
  intros Hne. induction 1 as [|it items Hit _ IH]; [done|].
  simpl. rewrite Hit, IH. by destruct (String.eqb_spec ty ty').
Qed.

Lemma selected_kind m :
  Forall (λ it, itemType it = "dependency")
    (map selectedItem (getSelectedDependencies m)).
Proof. apply Forall_fmap, Forall_forall. done. Qed.

Lemma unselected_kind m :
  Forall (λ it, itemType it = "dependency")
    (map unselectedItem (getUnselectedDependencies m)).
Proof. apply Forall_fmap, Forall_forall. done. Qed.

Lemma dependencyItems_parts fetched idList hasLastSelected m :
  dependencyItems (getQuickPickItems fetched idList hasLastSelected m).1
  = map selectedItem (getSelectedDependencies (loaded fetched idList m))
    ++ map unselectedItem (getUnselectedDependencies (loaded fetched idList m)).
Proof.
  rewrite getQuickPickItems_parts. unfold dependencyItems. simpl.
  set (m' := loaded fetched idList m).
  rewrite List.filter_app. simpl. rewrite List.filter_app.
  rewrite (filter_kind_none "lastUsed" "dependency" (lastUsedItems _ m'))
    by (done || apply lastUsedItems_kind).
  rewrite (filter_kind_all "dependency" (map unselectedItem _))
    by apply unselected_kind.
  unfold selectedItems.
  destruct (0 <? length _)%nat eqn:E; simpl.
  - by rewrite (filter_kind_all "dependency" (map selectedItem _))
      by apply selected_kind.
  - by destruct (getSelectedDependencies m').
Qed.

(** X4: whatever the catalog, the selection and the history, a display
    list holds exactly one selection summary, reporting the current
    selection; its dependency entries are the selected entries followed
    by the unselected ones; its only separator is the one labelled
    Selected; and it holds no last-used entry once an id is selected. *)
Theorem display_list_kinds fetched idList hasLastSelected m :
  let items := (getQuickPickItems fetched idList hasLastSelected m).1 in
  let m' := (getQuickPickItems fetched idList hasLastSelected m).2 in
  List.filter (λ it, String.eqb (itemType it) "selection") items
  = [selectionItem (selectedIds m)]
  ∧ dependencyItems items
    = map selectedItem (getSelectedDependencies m')
      ++ map unselectedItem (getUnselectedDependencies m')
  ∧ (∀ it, it ∈ items → itemType it = "separator" →
       it = newSeparator "Selected")
  ∧ (selectedIds m ≠ [] → ∀ it, it ∈ items → itemType it ≠ "lastUsed").
Proof.
  cbv zeta. split; [|split; [|split]].
  - rewrite getQuickPickItems_parts. simpl.
    set (m' := loaded fetched idList m).
    rewrite List.filter_app. simpl. rewrite List.filter_app.
    rewrite (filter_kind_none "lastUsed" "selection" (lastUsedItems _ m'))
      by (done || apply lastUsedItems_kind).
    rewrite (filter_kind_none "dependency" "selection" (map unselectedItem _))
      by (done || apply unselected_kind).
    subst m'. rewrite selectedIds_loaded. unfold selectedItems.
    destruct (0 <? length _)%nat; simpl; [|done].
    by rewrite (filter_kind_none "dependency" "selection" (map selectedItem _))
      by (done || apply selected_kind).
  - rewrite dependencyItems_parts. by rewrite getQuickPickItems_parts.
  - rewrite getQuickPickItems_parts. simpl. intros it Hit Hsep.
    pose proof (lastUsedItems_kind hasLastSelected (loaded fetched idList m))
      as Hl.
    pose proof (selected_kind (loaded fetched idList m)) as Hs.
    pose proof (unselected_kind (loaded fetched idList m)) as Hu.
    rewrite Forall_forall in Hl, Hs, Hu.
    apply elem_of_app in Hit as [Hit|Hit]; [apply Hl in Hit; congruence|].
    apply elem_of_cons in Hit as [->|Hit]; [discriminate Hsep|].
    apply elem_of_app in Hit as [Hit|Hit]; [|apply Hu in Hit; congruence].
    unfold selectedItems in Hit. destruct (0 <? length _)%nat.
    + apply elem_of_cons in Hit as [->|Hit]; [done|].
      apply Hs in Hit. congruence.
    + inversion Hit.
  - rewrite getQuickPickItems_parts. simpl. intros Hsel it Hit Hlast.
    assert (lastUsedItems hasLastSelected (loaded fetched idList m) = []) as El.
    { unfold lastUsedItems. rewrite selectedIds_loaded.
      by destruct (selectedIds m). }
    rewrite El in Hit. simpl in Hit.
    pose proof (selected_kind (loaded fetched idList m)) as Hs.
    pose proof (unselected_kind (loaded fetched idList m)) as Hu.
    rewrite Forall_forall in Hs, Hu.
    apply elem_of_cons in Hit as [->|Hit]; [discriminate Hlast|].
    apply elem_of_app in Hit as [Hit|Hit]; [|apply Hu in Hit; congruence].
    unfold selectedItems in Hit. destruct (0 <? length _)%nat.
    + apply elem_of_cons in Hit as [->|Hit]; [discriminate Hlast|].
      apply Hs in Hit. congruence.
    + inversion Hit.
Qed.



Lemma filter_none {A} (P : A → Prop) `{∀ x, Decision (P x)} (l : list A) :
  (∀ x, x ∈ l → ¬ P x) → filter P l = [].
Proof.
  induction l as [|x l IH]; [done|]. intros Hl.
  rewrite filter_cons_False by (apply Hl; left).
  apply IH. intros y Hy. apply Hl. by right.
Qed.

Lemma filter_same_id (deps : list IDependency) dep :
  NoDup (map id deps) → dep ∈ deps →
  filter (λ d, id d = id dep) deps = [dep].
Proof.
  induction deps as [|d deps IH]; [by inversion 2|].
  simpl. intros [Hd Hnd]%NoDup_cons [->|Hin]%elem_of_cons.
  - rewrite filter_cons_True by done. f_equal.
    apply filter_none. intros x Hx E. apply Hd. rewrite <- E.
    by apply (list_elem_of_fmap_2 id).
  - rewrite filter_cons_False; [by apply IH|].
    intros E. apply Hd. rewrite E. by apply (list_elem_of_fmap_2 id).
Qed.

(** A catalog of distinct, non-empty ids is indexed faithfully. *)
Lemma initialize_indexed fetched idList (bootVersion : string) sel :
  NoDup (map id (omap (λ d, d) fetched)) →
  Forall (λ dep, id dep ≠ "") (omap (λ d, d) fetched) →
  indexed (initialize fetched idList
             (DependencyHistory.set_selectedIds sel (create bootVersion))).
Proof.
  intros Hnd Hids. rewrite Forall_forall in Hids. split; simpl.
  - intros dep Hdep. rewrite index_lookup, decide_False by by apply Hids.
    by rewrite filter_same_id.
  - intros k dep. rewrite index_lookup, lookup_empty.
    destruct (decide (k = "")); [done|].
    destruct (last _) as [dep'|] eqn:El; [|done].
    intros [= ->]. apply last_Some in El as (l' & El).
    assert (dep ∈ filter (λ dep, id dep = k) (omap (λ d, d) fetched)) as Hin.
    { rewrite El. apply elem_of_app. right. left. }
    by apply list_elem_of_filter in Hin as [? ?].
Qed.

Lemma selected_NoDup m :
  indexed m → NoDup (selectedIds m) → NoDup (getSelectedDependencies m).
Proof.
  intros [_ Hidx]. unfold getSelectedDependencies.
  induction (selectedIds m) as [|x l IH]; [constructor|].
  intros [Hx Hl]%NoDup_cons. simpl.
  destruct (dict m !! x) as [dep|] eqn:Ex; [|by apply IH].
  apply NoDup_cons. split; [|by apply IH].
  intros (y & Hy & Ey)%list_elem_of_omap.
  apply Hidx in Ex as [_ <-]. apply Hidx in Ey as [_ <-]. done.
Qed.

Lemma selected_elem m dep :
  indexed m →
  dep ∈ getSelectedDependencies m
  ↔ dep ∈ filter (λ d, id d ∈ selectedIds m) (dependencies m).
Proof.
  intros [Hidx1 Hidx2]. unfold getSelectedDependencies.
  rewrite list_elem_of_omap, list_elem_of_filter. split.
  - intros (x & Hx & Ex). apply Hidx2 in Ex as [Hdep <-]. done.
  - intros [Hx Hdep]. exists (id dep). split; [done|]. by apply Hidx1.
Qed.

Lemma shown_once m :
  indexed m → NoDup (map id (dependencies m)) → NoDup (selectedIds m) →
  getSelectedDependencies m ++ getUnselectedDependencies m ≡ₚ dependencies m.
Proof.
  intros Hidx Hnd Hsel.
  assert (NoDup (dependencies m)) as Hdeps by by apply NoDup_fmap_1 in Hnd.
  etrans;
    [|apply (filter_app_complement (λ d, id d ∈ selectedIds m)
               (dependencies m))].
  apply Permutation_app.
  - apply NoDup_Permutation.
    + by apply selected_NoDup.
    + by apply NoDup_filter.
    + intros dep. by apply selected_elem.
  - unfold getUnselectedDependencies.
    erewrite list_filter_iff; [reflexivity|].
    intros dep. simpl. apply indexOf_absent.
Qed.

(** The ids the first display list shows, for a catalog of distinct,
    non-empty ids and a selection without repeats. *)
Lemma shown_ids fetched idList hasLastSelected
    (bootVersion : string) (sel : list string) :
  NoDup (map id (omap (λ d, d) fetched)) →
  Forall (λ dep, id dep ≠ "") (omap (λ d, d) fetched) →
  NoDup sel →
  map item_id
    (dependencyItems
       (getQuickPickItems fetched idList hasLastSelected
          (DependencyHistory.set_selectedIds sel (create bootVersion))).1)
  ≡ₚ map id (omap (λ d, d) fetched).
Proof.
  intros Hnd Hids Hsel. rewrite dependencyItems_parts.
  unfold loaded. simpl.
  set (m := initialize fetched idList
              (DependencyHistory.set_selectedIds sel (create bootVersion))).
  rewrite map_app, !map_map. simpl.
  change (map (λ x, id x) (getSelectedDependencies m)
          ++ map (λ x, id x) (getUnselectedDependencies m))
    with (map id (getSelectedDependencies m)
          ++ map id (getUnselectedDependencies m)).
  rewrite <- map_app.
  change (omap (λ d, d) fetched) with (dependencies m).
  apply (fmap_Permutation id).
  apply shown_once; [by apply initialize_indexed | done | done].
Qed.

Lemma count_once (l : list string) (k : string) :
  NoDup l → k ∈ l → length (filter (λ x, x = k) l) = 1%nat.
Proof.
  induction 1 as [|x l Hx Hl IH]; [by intros ?%elem_of_nil|].
  intros Hk. destruct (decide (x = k)) as [E|E].
  - rewrite filter_cons_True by done. simpl. f_equal.
    rewrite (filter_none (λ x, x = k) l); [done|].
    intros y Hy Ey. apply Hx. by rewrite E, <- Ey.
  - rewrite filter_cons_False by done. apply IH.
    apply elem_of_cons in Hk as [Hk|Hk]; [by symmetry in Hk|done].
Qed.

Lemma filter_item_id (items : list Item) (k : string) :
  length (filter (λ it, item_id it = k) items)
  = length (filter (λ x, x = k) (map item_id items)).
Proof.
  induction items as [|it items IH]; [done|]. simpl map.
  destruct (decide (item_id it = k)) as [E|E].
  - rewrite !filter_cons_True by done. simpl. by rewrite IH.
  - by rewrite !filter_cons_False.
Qed.

(** X6: for a catalog of distinct, non-empty ids and a selection without
    repeats, every catalog entry is shown exactly once in the first
    display list, whichever ids are selected and whether or not the
    catalog knows them; and the list shows no other dependency entry
    when each selected id is an id of the catalog or none of the names
    every object inherits, and no entry was stored under the name that
    stands for the prototype. *)
Theorem every_entry_shown_once fetched idList hasLastSelected
    (bootVersion : string) (sel : list string) :
  NoDup (map id (omap (λ d, d) fetched)) →
  Forall (λ dep, id dep ≠ "") (omap (λ d, d) fetched) →
  NoDup sel →
  let shown :=
    dependencyItems
      (getQuickPickItems fetched idList hasLastSelected
         (DependencyHistory.set_selectedIds sel (create bootVersion))).1 in
  (∀ dep, dep ∈ omap (λ d, d) fetched →
     length (filter (λ it, item_id it = id dep) shown) = 1%nat)
  ∧ (Forall (λ x, x ∉ inherited ∨ x ∈ map id (omap (λ d, d) fetched)) sel →
     "__proto__" ∉ map id (omap (λ d, d) fetched) →
     map item_id shown ≡ₚ map id (omap (λ d, d) fetched)).
Proof.
  intros Hnd Hids Hsel shown.
  pose proof (shown_ids fetched idList hasLastSelected bootVersion sel
                Hnd Hids Hsel) as Hperm.
  fold shown in Hperm. split; [|done].
  intros dep Hdep. rewrite filter_item_id.
  rewrite (Permutation_length
             (filter_Permutation (λ x, x = id dep) _ _ Hperm)).
  apply count_once; [done|]. by apply (list_elem_of_fmap_2 id).
Qed.

(** X21: toggling an id moves the catalog entries that carry it, and no
    other, between the unselected view and the selection: selecting an
    id takes its entries out of the view, deselecting it puts them back;
    the view always lists its entries in catalog order. *)
Theorem toggle_moves_entries (x : string) m dep :
  (x ∉ selectedIds m →
   getUnselectedDependencies (toggleDependency x m)
   = filter (λ d, id d ≠ x) (getUnselectedDependencies m))
  ∧ (x ∈ selectedIds m →
     (dep ∈ getUnselectedDependencies (toggleDependency x m)
      ↔ dep ∈ getUnselectedDependencies m
        ∨ (dep ∈ dependencies m ∧ id dep = x)))
  ∧ getUnselectedDependencies (toggleDependency x m)
    `sublist_of` dependencies m.
Proof.
  unfold getUnselectedDependencies. simpl. split; [|split].
  - intros Hx. rewrite toggle_absent by done.
    rewrite list_filter_filter. apply list_filter_iff. intros d.
    rewrite !indexOf_absent, not_elem_of_app, list_elem_of_singleton.
    tauto.
  - intros Hx. rewrite toggle_present by done.
    rewrite !list_elem_of_filter, !indexOf_absent, list_elem_of_filter.
    destruct (decide (id dep = x)) as [E|E]; [subst x|]; tauto.
  - apply sublist_filter.
Qed.

End Display.


(** ** Choosing the starters to add *)

Section AddingStarters.
Import DependencyManager DependencyHistory AddStarters.
#[local] Arguments getQuickPickItems : simpl never.

Implicit Types (m : t) (old rest : list string).

Lemma getQuickPickItems_selectedIds fetched idList hasLastSelected m :
  selectedIds (getQuickPickItems fetched idList hasLastSelected m).2
  = selectedIds m.
Proof. rewrite getQuickPickItems_parts. apply selectedIds_loaded. Qed.

Lemma toggle_additions old m rest x :
  x ∉ old → additions old m rest →
  ∃ rest', additions old (toggleDependency x m) rest'.
Proof.
  intros Hx (Hsel & Hnd & Hdis). unfold additions. simpl. rewrite Hsel.
  destruct (decide (x ∈ rest)) as [Hin|Hout].
  - exists (filter (λ y, y ≠ x) rest).
    rewrite toggle_present by (apply elem_of_app; by right).
    rewrite filter_app, (filter_absent x old) by done.
    split; [done|]. split; [by apply NoDup_filter|].
    intros y [_ Hy]%list_elem_of_filter. by apply Hdis.
  - exists (rest ++ [x]).
    rewrite toggle_absent by (rewrite elem_of_app; tauto).
    rewrite <- app_assoc. split; [done|]. split.
    + apply NoDup_app. split; [done|]. split; [|apply NoDup_singleton].
      intros y Hy ->%list_elem_of_singleton. done.
    + intros y [Hy| ->%list_elem_of_singleton]%elem_of_app; [by apply Hdis|done].
Qed.

Lemma pickLoop_nil old fetched idList m :
  pickLoop old fetched idList [] m
  = (None, (getQuickPickItems fetched idList None m).2).
Proof. reflexivity. Qed.

Lemma pickLoop_cons old fetched idList answer answers m :
  pickLoop old fetched idList (answer :: answers) m
  = let shown := getQuickPickItems fetched idList None m in
    match answer ≫= (shown.1 !!.) with
    | Some current =>
        if String.eqb (itemType current) "dependency"
        then pickLoop old fetched idList answers
               (if indexOf old (item_id current) =? -1
                then toggleDependency (item_id current) shown.2 else shown.2)
        else (Some current, shown.2)
    | None => (None, shown.2)
    end.
Proof. reflexivity. Qed.

Lemma pickLoop_additions old fetched idList answers m rest :
  additions old m rest →
  ∃ rest', additions old (pickLoop old fetched idList answers m).2 rest'.
Proof.
  revert m rest. induction answers as [|answer answers IH]; intros m rest Hm.
  - rewrite pickLoop_nil. exists rest. unfold additions. cbn [snd].
    by rewrite getQuickPickItems_selectedIds.
  - rewrite pickLoop_cons. cbv zeta.
    set (shown := getQuickPickItems fetched idList None m).
    assert (additions old shown.2 rest) as Hm'.
    { unfold additions. subst shown.
      by rewrite getQuickPickItems_selectedIds. }
    destruct (answer ≫= (shown.1 !!.)) as [current|]; [|by exists rest].
    destruct (String.eqb (itemType current) "dependency"); [|by exists rest].
    destruct (Z.eqb_spec (indexOf old (item_id current)) (-1)) as [Ei|Ei].
    + assert (item_id current ∉ old) as Hx by (apply indexOf_absent; lia).
      destruct (toggle_additions old shown.2 rest _ Hx Hm') as [rest' Hr].
      by apply (IH _ rest').
    + by apply (IH _ rest).
Qed.

Lemma toAdd_additions old m rest :
  additions old m rest →
  List.filter (λ elem, indexOf old elem <? 0) (selectedIds m) = rest.
Proof.
  intros (-> & _ & Hdis). rewrite List.filter_app.
  assert (List.filter (λ elem, indexOf old elem <? 0) old = []) as ->.
  { assert (∀ l, (∀ x, x ∈ l → x ∈ old) →
              List.filter (λ elem, indexOf old elem <? 0) l = []) as H.
    { induction l as [|x l IH]; [done|]. intros Hl. simpl.
      assert (0 ≤ indexOf old x) by (apply indexOf_found, Hl; left).
      destruct (Z.ltb_spec (indexOf old x) 0); [lia|].
      apply IH. intros y Hy. apply Hl. by right. }
    by apply H. }
  simpl. induction rest as [|x rest IH]; [done|]. simpl.
  assert (indexOf old x < 0) by (apply indexOf_absent, Hdis; left).
  destruct (Z.ltb_spec (indexOf old x) 0); [|lia].
  f_equal. apply IH. intros y Hy. apply Hdis. by right.
Qed.

Lemma elem_of_toggle (x y : string) l : y ∈ toggle x l → y ∈ l ∨ y = x.
Proof.
  destruct (decide (x ∈ l)).
  - rewrite toggle_present by done. intros [_ ?]%list_elem_of_filter. by left.
  - rewrite toggle_absent by done.
    intros [?| ->%list_elem_of_singleton]%elem_of_app; eauto.
Qed.

Lemma catalogued_loaded fetched idList old m :
  catalogued fetched old m → catalogued fetched old (loaded fetched idList m).
Proof.
  intros (Hdeps & Hidx & Hdict & Hblank & Hsel). unfold loaded.
  destruct (length (dependencies m) =? 0)%nat eqn:E; [|done].
  apply Nat.eqb_eq, nil_length_inv in E.
  assert (∀ k, dict m !! k = None) as Hempty.
  { intros k. destruct (dict m !! k) as [dep|] eqn:Ek; [|done].
    apply Hdict in Ek as [Hin _]. rewrite E in Hin.
    by apply elem_of_nil in Hin. }
  split; [by right|]. simpl. split; [|split; [|split]].
  - intros dep Hdep Hid. rewrite index_lookup, decide_False by done.
    destruct (last _) eqn:El; [done|]. apply last_None in El.
    assert (dep ∈ filter (λ d, id d = id dep) (omap (λ d, d) fetched))
      as Hin by (by apply list_elem_of_filter).
    rewrite El in Hin. by apply elem_of_nil in Hin.
  - intros k dep. rewrite index_lookup, Hempty.
    destruct (decide (k = "")); [done|].
    destruct (last _) as [dep'|] eqn:El; [|done].
    intros [= ->]. apply last_Some in El as (l' & El).
    assert (dep ∈ filter (λ dep, id dep = k) (omap (λ d, d) fetched)) as Hin.
    { rewrite El. apply elem_of_app. right. left. }
    by apply list_elem_of_filter in Hin as [? ?].
  - rewrite index_lookup, decide_True by done. apply Hempty.
  - intros x Hx. destruct (Hsel x Hx) as [?|(dep & Hin & _)]; [by left|].
    rewrite E in Hin. by apply elem_of_nil in Hin.
Qed.

Lemma catalogued_toggle fetched old m x :
  catalogued fetched old m →
  (∃ dep, dep ∈ dependencies m ∧ id dep = x) →
  catalogued fetched old (toggleDependency x m).
Proof.
  intros (Hdeps & Hidx & Hdict & Hblank & Hsel) Hx.
  split; [done|]. split; [done|]. split; [done|]. split; [done|].
  simpl. intros y [Hy| ->]%elem_of_toggle; [by apply Hsel | by right].
Qed.

(** An entry the user can toggle stands for an entry of the catalog. *)
Lemma picked_dependency fetched idList hasLastSelected old m current :
  catalogued fetched old (loaded fetched idList m) →
  current ∈ (getQuickPickItems fetched idList hasLastSelected m).1 →
  itemType current = "dependency" →
  ∃ dep, dep ∈ dependencies (loaded fetched idList m)
         ∧ id dep = item_id current.
Proof.
  intros (_ & _ & Hdict & _ & _) Hin Hty.
  assert (current ∈ dependencyItems
                      (getQuickPickItems fetched idList hasLastSelected m).1)
    as Hd.
  { unfold dependencyItems. apply list_elem_of_In, List.filter_In.
    split; [by apply list_elem_of_In|]. by rewrite Hty. }
  rewrite dependencyItems_parts in Hd.
  apply elem_of_app in Hd as [Hd|Hd];
    apply (list_elem_of_fmap_1 _) in Hd as (dep & -> & Hdep); exists dep.
  - apply list_elem_of_omap in Hdep as (y & _ & Ey).
    apply Hdict in Ey as [? _]. done.
  - apply list_elem_of_filter in Hdep as [_ ?]. done.
Qed.

Lemma pickLoop_catalogued old fetched idList answers m :
  catalogued fetched old m →
  catalogued fetched old (pickLoop old fetched idList answers m).2.
Proof.
  revert m. induction answers as [|answer answers IH]; intros m Hm.
  - rewrite pickLoop_nil, getQuickPickItems_parts. cbn [snd].
    by apply catalogued_loaded.
  - rewrite pickLoop_cons. cbv zeta.
    assert (catalogued fetched old (loaded fetched idList m)) as Hm'
      by by apply catalogued_loaded.
    assert ((getQuickPickItems fetched idList None m).2
            = loaded fetched idList m) as E2
      by by rewrite getQuickPickItems_parts.
    destruct (answer ≫= _) as [current|] eqn:Ea; [|by rewrite E2].
    destruct (String.eqb_spec (itemType current) "dependency") as [Hty|];
      [|by rewrite E2].
    apply IH. rewrite E2.
    destruct (indexOf old (item_id current) =? -1); [|done].
    apply catalogued_toggle; [done|].
    apply (picked_dependency fetched idList None old m); [done| |done].
    destruct answer as [i|]; [|done]. simpl in Ea.
    by apply list_elem_of_lookup_2 in Ea.
Qed.

(** Where the picking ends, starting from the starters of the pom. *)
Lemma pickLoop_from_old (bootVersion : string) old fetched idList answers :
  ∃ rest,
    additions old
      (pickLoop old fetched idList answers
         (set_selectedIds old (create bootVersion))).2 rest
    ∧ catalogued fetched old
        (pickLoop old fetched idList answers
           (set_selectedIds old (create bootVersion))).2.
Proof.
  set (m0 := set_selectedIds old (create bootVersion)).
  assert (additions old m0 []) as H0.
  { split; [by rewrite app_nil_r|]. split; [constructor|]. by inversion 1. }
  destruct (pickLoop_additions old fetched idList answers m0 [] H0)
    as [rest Hrest].
  exists rest. split; [done|]. apply pickLoop_catalogued.
  split; [by left|]. split; [by inversion 1|]. split; [by inversion 1|].
  split; [done|]. intros x Hx. by left.
Qed.

(** The ids added come from the catalog. *)
Lemma additions_fetched fetched old m rest x :
  additions old m rest → catalogued fetched old m → x ∈ rest →
  ∃ dep, Some dep ∈ fetched ∧ id dep = x
         ∧ (x ≠ "" → is_Some (dict m !! x)).
Proof.
  intros (Hsel & _ & Hdis) (Hdeps & Hidx & _ & _ & Hknown) Hx.
  destruct (Hknown x) as [Hold|(dep & Hdep & <-)].
  - rewrite Hsel. apply elem_of_app. by right.
  - by apply Hdis in Hx.
  - exists dep. split; [|split; [done|by apply Hidx]].
    destruct Hdeps as [E|E]; rewrite E in Hdep;
      [by apply elem_of_nil in Hdep|].
    apply list_elem_of_omap in Hdep as ([d|] & Hd & [= ->]). done.
Qed.

(** The names of the additions can all be read unless the empty id is
    among them. *)
Lemma names_read fetched old m rest :
  additions old m rest → catalogued fetched old m →
  forallb (λ d, bool_decide (is_Some (dict m !! d))) rest = true
  ↔ "" ∉ rest.
Proof.
  intros Hadd Hcat. rewrite forallb_forall. split.
  - intros Hall Hin. apply list_elem_of_In, Hall, bool_decide_eq_true in Hin.
    destruct Hcat as (_ & _ & _ & Hblank & _). rewrite Hblank in Hin.
    by destruct Hin.
  - intros Hout x Hx%list_elem_of_In. apply bool_decide_eq_true.
    destruct (additions_fetched fetched old m rest x Hadd Hcat Hx)
      as (_ & _ & _ & Hsome).
    apply Hsome. by intros ->.
Qed.

(** X7: whatever the user picks, the starters the pom already has stay
    selected, and what is handed on for insertion, after the user chose
    to proceed, is a non-empty list of distinct, non-empty ids of catalog
    entries none of which the pom already has: the selection is the old
    starters followed by it. *)
Theorem chooseStarters_adds_new (bootVersion : string) old fetched idList
    answers choice (toAdd : list string) :
  chooseStarters bootVersion old fetched idList answers choice
    = Proceed toAdd →
  choice = Some "Proceed"
  ∧ toAdd ≠ []
  ∧ NoDup toAdd
  ∧ (∀ x, x ∈ toAdd →
       (x ∉ old) ∧ x ≠ "" ∧ ∃ dep, Some dep ∈ fetched ∧ id dep = x)
  ∧ selectedIds
      (pickLoop old fetched idList answers
         (set_selectedIds old (create bootVersion))).2
    = old ++ toAdd.
Proof.
  unfold chooseStarters. simpl.
  destruct (pickLoop_from_old bootVersion old fetched idList answers)
    as (rest & Hrest & Hcat).
  destruct (pickLoop old fetched idList answers _) as [current m'] eqn:E.
  cbn [snd] in Hrest, Hcat. destruct current as [current|]; [|discriminate].
  rewrite (toAdd_additions old m' rest Hrest).
  destruct (length rest =? 0)%nat eqn:El; [discriminate|].
  destruct (forallb _ rest) eqn:Ef; [|discriminate].
  apply (names_read fetched old m' rest Hrest Hcat) in Ef.
  destruct choice as [c|]; [|discriminate].
  destruct (String.eqb_spec c "Proceed") as [->|]; [|discriminate].
  intros [= <-]. pose proof Hrest as (Hsel & Hnd & Hdis).
  split; [done|]. split; [by destruct rest|]. split; [done|].
  split; [|done]. intros x Hx. split; [by apply Hdis|].
  split; [by intros ->|].
  destruct (additions_fetched fetched old m' rest x Hrest Hcat Hx)
    as (dep & ? & ? & _).
  by exists dep.
Qed.

(** X22: building the text of the confirmation fails, on the name of an
    id the index does not hold, exactly when the user ended the picking
    on an item with the empty id among the additions; this takes a
    catalog entry without an id, which the index never holds. No choice
    is asked for then and nothing is handed on. *)
Theorem chooseStarters_fails_on_empty_id (bootVersion : string) old fetched
    idList answers choice :
  let run :=
    pickLoop old fetched idList answers
      (set_selectedIds old (create bootVersion)) in
  (chooseStarters bootVersion old fetched idList answers choice = Failed
   ↔ is_Some run.1 ∧ ("" ∉ old) ∧ "" ∈ selectedIds run.2)
  ∧ (chooseStarters bootVersion old fetched idList answers choice = Failed →
     ∃ dep, Some dep ∈ fetched ∧ id dep = "").
Proof.
  cbv zeta. unfold chooseStarters. simpl.
  destruct (pickLoop_from_old bootVersion old fetched idList answers)
    as (rest & Hrest & Hcat).
  destruct (pickLoop old fetched idList answers _) as [current m'] eqn:E.
  cbn [fst snd] in *.
  pose proof Hrest as (Hsel & Hnd & Hdis).
  assert ((("" ∉ old) ∧ "" ∈ selectedIds m') ↔ "" ∈ rest) as Hblank.
  { rewrite Hsel, elem_of_app. split; [tauto|].
    intros Hin. split; [by apply Hdis | by right]. }
  destruct current as [current|].
  2:{ split; [|discriminate]. split; [discriminate|].
      intros [[? [=]] _]. }
  rewrite (toAdd_additions old m' rest Hrest).
  destruct (length rest =? 0)%nat eqn:El.
  { apply Nat.eqb_eq, nil_length_inv in El. subst rest.
    split; [|discriminate]. split; [discriminate|].
    intros (_ & H). apply Hblank in H. by apply elem_of_nil in H. }
  destruct (forallb _ rest) eqn:Ef.
  - apply (names_read fetched old m' rest Hrest Hcat) in Ef. split.
    + split; [by destruct choice as [c|]; [destruct (String.eqb c _)|]|].
      intros (_ & H). by apply Hblank in H.
    + by destruct choice as [c|]; [destruct (String.eqb c _)|].
  - assert ("" ∈ rest) as Hin.
    { destruct (decide ("" ∈ rest)) as [?|Hout]; [done|].
      apply (names_read fetched old m' rest Hrest Hcat) in Hout.
      congruence. }
    split.
    + split; [|done]. intros _. split; [by eexists|]. by apply Hblank.
    + intros _.
      destruct (additions_fetched fetched old m' rest "" Hrest Hcat Hin)
        as (dep & ? & ? & _).
      by exists dep.
Qed.

End AddingStarters.


(** ** The dependencies step *)

Section Dependencies.
Import DependencyManager Storage DependencyHistory Wizard DependenciesStep.
#[local] Arguments getQuickPickItems : simpl never.

Implicit Types (st : State) (pk : Picker) (w : World).

Lemma with_dependencies_own st :
  with_dependencies (d_dependencies (defaults (metadata st))) st = st.
Proof. by destruct st as [[? [] ? ? ? ? ? ? ? ?] ?]. Qed.

Lemma with_dependencies_twice d d' st :
  with_dependencies d (with_dependencies d' st) = with_dependencies d st.
Proof. by destruct st as [[? [] ? ? ? ? ? ? ? ?] ?]. Qed.

Lemma step_pickLoop_nil fetched idList pk st :
  pickLoop fetched idList [] pk st
  = (None,
     {| manager := (getQuickPickItems fetched idList (Some true) (manager pk)).2;
        shared := shared pk |}, st).
Proof. reflexivity. Qed.

Lemma step_pickLoop_cons fetched idList answer answers pk st :
  pickLoop fetched idList (answer :: answers) pk st
  = let shown := getQuickPickItems fetched idList (Some true) (manager pk) in
    let pk1 := {| manager := shown.2; shared := shared pk |} in
    match answer ≫= (shown.1 !!.) with
    | Some current =>
        if String.eqb (itemType current) "dependency"
        then let '(pk2, st2) := toggleDependency (item_id current) pk1 st in
             pickLoop fetched idList answers pk2 st2
        else (Some current, pk1, st)
    | None => (None, pk1, st)
    end.
Proof. reflexivity. Qed.

Lemma toggleDependency_frame x pk st :
  (∃ d, (toggleDependency x pk st).2 = with_dependencies d st)
  ∧ (shared pk = false →
     (toggleDependency x pk st).2 = st
     ∧ shared (toggleDependency x pk st).1 = false).
Proof.
  unfold toggleDependency.
  destruct (0 <=? indexOf (selectedIds (manager pk)) x); simpl.
  - split; [|done]. eexists. symmetry. apply with_dependencies_own.
  - destruct (shared pk); simpl.
    + split; [|done]. by eexists.
    + split; [|done]. eexists. symmetry. apply with_dependencies_own.
Qed.

(** The loop touches nothing of the wizard state but
    [defaults.dependencies], not even that when no array was handed in,
    and ends on no item or on an item that is not a dependency. *)
Lemma step_pickLoop_frame fetched idList answers pk st :
  (∃ d, (pickLoop fetched idList answers pk st).2 = with_dependencies d st)
  ∧ (shared pk = false → (pickLoop fetched idList answers pk st).2 = st)
  ∧ (∀ current, (pickLoop fetched idList answers pk st).1.1 = Some current →
       String.eqb (itemType current) "dependency" = false).
Proof.
  revert pk st. induction answers as [|answer answers IH]; intros pk st.
  - rewrite step_pickLoop_nil. simpl. split; [|done].
    eexists. symmetry. apply with_dependencies_own.
  - rewrite step_pickLoop_cons. cbv zeta.
    set (shown := getQuickPickItems fetched idList (Some true) (manager pk)).
    destruct (answer ≫= (shown.1 !!.)) as [current|]; cbn [fst snd].
    2:{ split; [|done]. eexists. symmetry. apply with_dependencies_own. }
    destruct (String.eqb (itemType current) "dependency") eqn:Ek; cbn [fst snd].
    2:{ split; [eexists; symmetry; apply with_dependencies_own|].
        split; [done|]. by intros c [= <-]. }
    set (pk1 := {| manager := shown.2; shared := shared pk |}).
    destruct (toggleDependency_frame (item_id current) pk1 st)
      as [[d1 Hd1] Hs1].
    destruct (toggleDependency (item_id current) pk1 st) as [pk2 st2].
    simpl in Hd1, Hs1.
    destruct (IH pk2 st2) as ([d Hd] & Hs & Hc).
    split; [|split; [|done]].
    + exists d. by rewrite Hd, Hd1, with_dependencies_twice.
    + intros Hsh. destruct (Hs1 Hsh) as [-> Hsh2]. by apply Hs.
Qed.

(** X8: a dismissed dependencies prompt navigates back: the step returns
    the step on top of navigationStack and takes it off, writes no
    history file and leaves the chosen dependencies and the rest of the
    descriptor as they were; only the array [defaults.dependencies], when
    one was handed in, may have changed. *)
Theorem dependencies_dismissed_goes_back ext fetched answers w :
  (specifyDependencies ext fetched answers w).1 = Ok false →
  ∃ d,
    execute ext fetched answers w
    = (Ok (last (pickSteps (metadata (wizard w)))),
       {| wizard := popped (with_dependencies d (wizard w));
          dependencies := dependencies w;
          files := files w |})
    ∧ (d_dependencies (defaults (metadata (wizard w))) = None →
       with_dependencies d (wizard w) = wizard w).
Proof.
  unfold execute. rewrite bind_run. unfold specifyDependencies.
  set (pk0 := {| manager := _; shared := _ |}).
  destruct (step_pickLoop_frame fetched (history ext (files w)) answers pk0
              (wizard w)) as ([d Hd] & Hs & _).
  destruct (pickLoop fetched (history ext (files w)) answers pk0 (wizard w))
    as [[current pk] st].
  simpl in Hd, Hs. destruct current as [current|].
  - destruct (updateLastUsedDependencies _ _ _ _). discriminate.
  - intros _. exists d. subst st. split.
    + by destruct w as [[[? [] ? ? ? ? ? ? ? ?] ?] ? ?].
    + intros Hnone. apply Hs. subst pk0. simpl. rewrite Hnone.
      by apply bool_decide_eq_false_2, is_Some_None.
Qed.

Lemma history_written ext (data : string) (files : gmap string string)
    (root : string) :
  extensionPath ext = Some root → root ≠ "" →
  history ext
    (writeFileToExtensionRoot ext DEPENDENCIES_HISTORY_FILENAME data files).2
  = Some data.
Proof.
  intros Hroot Hne. apply truthy_Some in Hne.
  unfold history, writeFileToExtensionRoot, readFileFromExtensionRoot.
  rewrite Hroot, Hne, bind_run. simpl. by rewrite lookup_insert_eq.
Qed.

(** X9: when the user ends the dependencies prompt on an item, the wizard
    is over: the step returns no next step, the chosen item, never a
    dependency entry, becomes the [dependencies] of the metadata, its id
    list is what a later run reads as the last used selection (the
    extension having an install directory), and navigationStack is as it
    was: the step does not record itself. *)
Theorem dependencies_chosen_ends_wizard ext fetched answers w :
  (specifyDependencies ext fetched answers w).1 = Ok true →
  ∃ current,
    (execute ext fetched answers w).1 = Ok None
    ∧ dependencies (execute ext fetched answers w).2 = Some current
    ∧ itemType current ≠ "dependency"
    ∧ pickSteps (metadata (wizard (execute ext fetched answers w).2))
      = pickSteps (metadata (wizard w))
    ∧ (∀ root, extensionPath ext = Some root → root ≠ "" →
         history ext (files (execute ext fetched answers w).2)
         = Some (item_id current)).
Proof.
  unfold execute. rewrite bind_run. unfold specifyDependencies.
  set (pk0 := {| manager := _; shared := _ |}).
  destruct (step_pickLoop_frame fetched (history ext (files w)) answers pk0
              (wizard w)) as ([d Hd] & _ & Hc).
  destruct (pickLoop fetched (history ext (files w)) answers pk0 (wizard w))
    as [[current pk] st].
  simpl in Hd, Hc. destruct current as [current|]; [|discriminate].
  intros _. exists current.
  unfold updateLastUsedDependencies. rewrite bind_run.
  pose proof (history_written ext (item_id current) (files w)) as Hw.
  destruct (writeFileToExtensionRoot ext DEPENDENCIES_HISTORY_FILENAME
              (item_id current) (files w)) as [[[]|e] files'] eqn:Ew;
    simpl in *.
  - split; [done|]. split; [done|].
    split; [by apply String.eqb_neq, Hc|].
    split; [|done]. subst st.
    by destruct w as [[[? [] ? ? ? ? ? ? ? ?] ?] ? ?].
  - exfalso. unfold writeFileToExtensionRoot in Ew.
    destruct (extensionPath ext) as [r|]; [|discriminate Ew].
    destruct (truthy (Some r)); discriminate Ew.
Qed.

(** X10: the array [defaults.dependencies] the caller handed in is the
    selection of the step itself: when the user adds a dependency it does
    not hold and then dismisses the prompt, the step navigates back and
    the caller's array has grown by that id. *)
Theorem defaults_array_written_through ext fetched (l : list string)
    (i : nat) (it : Item) w :
  d_dependencies (defaults (metadata (wizard w))) = Some l →
  (getQuickPickItems fetched (history ext (files w)) (Some true)
     (set_selectedIds l
        (create (default "" (Wizard.bootVersion (metadata (wizard w)))))))
    .1 !! i = Some it →
  itemType it = "dependency" →
  item_id it ∉ l →
  (execute ext fetched [Some i] w).1
  = Ok (last (pickSteps (metadata (wizard w))))
  ∧ d_dependencies
      (defaults (metadata (wizard (execute ext fetched [Some i] w).2)))
    = Some (l ++ [item_id it]).
Proof.
  intros Hl Hi Hk Hx.
  assert (execute ext fetched [Some i] w
          = (Ok (last (pickSteps (metadata (wizard w)))),
             {| wizard :=
                  popped (with_dependencies (Some (l ++ [item_id it]))
                            (wizard w));
                dependencies := dependencies w;
                files := files w |})) as ->;
    [|by destruct w as [[[? [] ? ? ? ? ? ? ? ?] ?] ? ?]].
  unfold execute. rewrite bind_run. unfold specifyDependencies.
  rewrite Hl. change (default [] (Some l)) with l.
  rewrite step_pickLoop_cons. cbv zeta. cbn [manager shared mbind option_bind].
  change (Some i ≫= ?f) with (f i). cbn beta. rewrite Hi, Hk.
  rewrite String.eqb_refl.
  unfold toggleDependency at 1. cbn [manager shared].
  rewrite getQuickPickItems_selectedIds. cbn [selectedIds set_selectedIds].
  assert (indexOf l (item_id it) < 0) as Hlt by by apply indexOf_absent.
  destruct (Z.leb_spec 0 (indexOf l (item_id it))); [lia|].
  assert (bool_decide (is_Some (Some l)) = true) as ->
    by by apply bool_decide_eq_true_2.
  rewrite step_pickLoop_nil. cbn [negb].
  cbn [DependencyManager.toggleDependency selectedIds].
  rewrite getQuickPickItems_selectedIds. cbn [selectedIds set_selectedIds].
  rewrite toggle_absent by done.
  by destruct w as [[[? [] ? ? ? ? ? ? ? ?] ?] ? ?].
Qed.

End Dependencies.


(** ** The service URL step *)

Section ServiceUrl.
Import Wizard ServiceUrlStep.

Implicit Types (st : State) (urls : list string).

(** X11: with a single configured service URL (a string, or an array of
    one) or none at all (the empty array, for which the public service
    is taken), the service URL step never prompts and never fails: it
    writes that URL into the descriptor, hands over to the boot version
    step and leaves navigationStack as it was. *)
Theorem serviceUrl_single (configValue : ServiceUrlConfig) (url : string)
    (answer : option nat) st :
  configValue = UrlString url ∨ configValue = UrlArray [url]
  ∨ (configValue = UrlArray [] ∧ url = DEFAULT_SERVICE_URL) →
  execute configValue answer st
  = (Ok (Some SpecifyBootVersionStep),
     on_metadata (set_serviceUrl (Some url)) st)
  ∧ pickSteps (metadata (execute configValue answer st).2)
    = pickSteps (metadata st).
Proof. intros [->|[->|[-> ->]]]; done. Qed.

Lemma serviceUrl_single_witness :
  execute (UrlArray ["https://start.spring.io"]) None (fresh noDefaults)
  = (Ok (Some SpecifyBootVersionStep),
     on_metadata (set_serviceUrl (Some "https://start.spring.io"))
       (fresh noDefaults))
  ∧ pickSteps
      (metadata
         (execute (UrlArray ["https://start.spring.io"]) None
            (fresh noDefaults)).2)
    = pickSteps (metadata (fresh noDefaults)).
Proof.
  apply (serviceUrl_single (UrlArray ["https://start.spring.io"])
           "https://start.spring.io" None (fresh noDefaults)).
  right. left. reflexivity.
Defined.

(** X12: with several configured service URLs the step records itself on
    navigationStack before the user answers: a picked URL is written
    into the descriptor and the boot version step is next; a dismissed
    pick signals cancellation, with the step already on the stack and
    the service URL of the descriptor cleared. *)
Theorem serviceUrl_several urls (answer : option nat) st :
  (2 ≤ length urls)%nat →
  execute (UrlArray urls) answer st
  = match answer ≫= (urls !!.) with
    | Some url =>
        (Ok (Some SpecifyBootVersionStep),
         on_metadata (set_serviceUrl (Some url))
           (recorded SpecifyServiceUrlStep st))
    | None =>
        (Throw (OperationCanceledError "Service URL not specified."),
         on_metadata (set_serviceUrl None)
           (recorded SpecifyServiceUrlStep st))
    end.
Proof.
  intros Hlen. destruct urls as [|u1 [|u2 urls]]; simpl in Hlen; [lia|lia|].
  unfold execute, specifyServiceUrl. simpl.
  rewrite !bind_run. simpl.
  by destruct (answer ≫= _).
Qed.

Lemma serviceUrl_several_witness :
  execute (UrlArray ["https://start.spring.io"; "https://start.example.org"])
    None (fresh noDefaults)
  = (Throw (OperationCanceledError "Service URL not specified."),
     on_metadata (set_serviceUrl None)
       (recorded SpecifyServiceUrlStep (fresh noDefaults))).
Proof.
  apply (serviceUrl_several
           ["https://start.spring.io"; "https://start.example.org"]
           None (fresh noDefaults)).
  simpl. lia.
Defined.

End ServiceUrl.

(** ** Going back after an answered prompt *)

Section GoingBack.
Import Wizard.

Implicit Types (st : State) (step : Step).

Lemma pop_push {A} (l : list A) (x : A) : pop (push l x) = (Some x, l).
Proof. unfold pop, push. by rewrite last_snoc, removelast_last. Qed.

Lemma popStep_recorded step st :
  popStep (recorded step st)
  = (Ok (Some step),
     on_metadata (set_pickSteps (pickSteps (metadata st))) (recorded step st)).
Proof.
  unfold popStep.
  assert (pop (pickSteps (metadata (recorded step st)))
          = (Some step, pickSteps (metadata st))) as -> by apply pop_push.
  done.
Qed.

(** X13: every answered pick records the step it was shown for, and
    nothing else, on top of navigationStack, so that going back right
    after it returns that very step and leaves the stack as it was before
    the pick; the same holds for an answered input of the group id,
    artifact id or package name. *)
Theorem answered_prompt_pops_back step (selected : IHandlerItem)
    (input : string) st :
  (let st1 := (createPickBox step (Some selected) st).2 in
   (createPickBox step (Some selected) st).1 = Ok true
   ∧ pickSteps (metadata st1) = pickSteps (metadata st) ++ [step]
   ∧ inputs st1 = inputs st
   ∧ (popStep st1).1 = Ok (Some step)
   ∧ pickSteps (metadata (popStep st1).2) = pickSteps (metadata st))
  ∧ (step = SpecifyGroupIdStep ∨ step = SpecifyArtifactIdStep
     ∨ step = SpecifyPackageNameStep →
     let st1 := (createInputBox step (Some input) st).2 in
     (createInputBox step (Some input) st).1 = Ok true
     ∧ pickSteps (metadata st1) = pickSteps (metadata st) ++ [step]
     ∧ (popStep st1).1 = Ok (Some step)
     ∧ pickSteps (metadata (popStep st1).2) = pickSteps (metadata st)).
Proof.
  split.
  - cbv zeta.
    assert (∃ st0, (createPickBox step (Some selected) st
                    = (Ok true, recorded step st0))
                   ∧ pickSteps (metadata st0) = pickSteps (metadata st)
                   ∧ inputs st0 = inputs st) as (st0 & -> & Hp & Hi).
    { destruct step; eexists; (split; [reflexivity|]); done. }
    cbn [fst snd]. rewrite popStep_recorded, pickSteps_recorded, Hp.
    done.
  - cbv zeta. intros H.
    assert (∃ st0, (createInputBox step (Some input) st
                    = (Ok true, recorded step st0))
                   ∧ pickSteps (metadata st0) = pickSteps (metadata st))
      as (st0 & -> & Hp).
    { destruct H as [->|[->| ->]]; eexists; (split; [reflexivity|]); done. }
    cbn [fst snd]. rewrite popStep_recorded, pickSteps_recorded, Hp.
    done.
Qed.

End GoingBack.

(** ** Opening the generated project *)

Section OpenMethod.
Import GenerateProject.

(** X14: [specifyOpenMethod] always answers Open or Cancel: unset, the
    setting reads Open and nothing is asked; set to any other value than
    these two, the user is asked, Cancel being on offer only when a
    folder is open, and only picking the first candidate opens the
    project: a dismissed pick cancels. *)
Theorem specifyOpenMethod_answers (defaultOpenProjectMethod : option string)
    (hasOpenFolder : bool) (answer : option nat) :
  let r := specifyOpenMethod defaultOpenProjectMethod hasOpenFolder answer in
  (r = OPEN_IN_NEW_WORKSPACE ∨ r = CANCEL_OPEN_WORKSPACE)
  ∧ (defaultOpenProjectMethod = None → r = OPEN_IN_NEW_WORKSPACE)
  ∧ (∀ v, defaultOpenProjectMethod = Some v →
       v ≠ OPEN_IN_NEW_WORKSPACE → v ≠ CANCEL_OPEN_WORKSPACE →
       (r = OPEN_IN_NEW_WORKSPACE ↔ answer = Some 0%nat)).
Proof.
  cbv zeta. unfold specifyOpenMethod.
  destruct defaultOpenProjectMethod as [v|]; simpl.
  - destruct (String.eqb_spec v CANCEL_OPEN_WORKSPACE) as [->|Hc]; simpl.
    { split; [by right|]. split; [done|]. intros v [= <-] _ H. done. }
    destruct (String.eqb_spec v OPEN_IN_NEW_WORKSPACE) as [->|Ho]; simpl.
    { split; [by left|]. split; [done|]. intros v [= <-] H. done. }
    destruct answer as [[|[|n]]|], hasOpenFolder; simpl;
      (split; [by (left + right)|]); (split; [done|]);
      intros v' _ _ _; split; done.
  - split; [by left|]. split; [done|]. intros v [=].
Qed.

End OpenMethod.

(** ** The shape of accepted identifiers *)

Section IdentifierShapes.
Import Validation.
#[local] Arguments String.append !_ _ / : simpl nomatch.

Implicit Types (r : regex) (s : string) (P : ascii → bool).

Lemma all_chars_append P s1 s2 :
  all_chars P (s1 +:+ s2) = all_chars P s1 && all_chars P s2.
Proof.
  induction s1 as [|c s1 IH]; simpl; [done|]. by rewrite IH, andb_assoc.
Qed.

Lemma matches_all_chars P r s :
  classes_within P r → matches r s → all_chars P s = true.
Proof.
  intros Hr Hm. induction Hm as [|p c Hc|r1 r2 s1 s2 _ IH1 _ IH2|r1 r2 s _ IH
                               |r1 r2 s _ IH| |r s1 s2 _ IH1 _ IH2]; simpl in *.
  - done.
  - by rewrite (Hr c Hc).
  - destruct Hr. by rewrite all_chars_append, IH1, IH2.
  - destruct Hr. by apply IH.
  - destruct Hr. by apply IH.
  - done.
  - by rewrite all_chars_append, IH1, IH2.
Qed.

Lemma last_char_None s : last_char s = None → s = "".
Proof.
  induction s as [|c s IH]; [done|]. simpl.
  destruct s as [|d s]; [done|]. intros H. by specialize (IH H).
Qed.

Lemma last_char_append s1 s2 :
  last_char (s1 +:+ s2)
  = match last_char s2 with Some c => Some c | None => last_char s1 end.
Proof.
  induction s1 as [|c s1 IH].
  { change ("" +:+ s2) with s2. by destruct (last_char s2). }
  destruct s1 as [|d s1].
  - change (String c "" +:+ s2) with (String c s2).
    destruct s2 as [|e s2]; [done|].
    change (last_char (String c (String e s2)))
      with (last_char (String e s2)).
    destruct (last_char (String e s2)) as [x|] eqn:E; [done|].
    by apply last_char_None in E.
  - change (last_char (String c (String d s1) +:+ s2))
      with (last_char (String d s1 +:+ s2)).
    rewrite IH. by destruct (last_char s2).
Qed.

Lemma matches_last_char P r s :
  ends_within P r → matches r s →
  match last_char s with Some c => P c = true | None => True end.
Proof.
  intros Hr Hm. induction Hm as [|p c Hc|r1 r2 s1 s2 Hm1 IH1 Hm2 IH2
                               |r1 r2 s _ IH|r1 r2 s _ IH|
                               |r s1 s2 _ IH1 _ IH2]; simpl in *.
  - done.
  - by apply Hr.
  - destruct Hr as [Hr2 Hr1]. rewrite last_char_append.
    specialize (IH2 Hr2). destruct (last_char s2) as [c|] eqn:E2; [done|].
    apply last_char_None in E2. subst s2.
    apply IH1, Hr1. by apply nullable_matches.
  - destruct Hr. by apply IH.
  - destruct Hr. by apply IH.
  - done.
  - rewrite last_char_append. specialize (IH1 Hr). specialize (IH2 Hr).
    by destruct (last_char s2).
Qed.

Lemma lower_us_digit c : lower_us c = true → lower_digit_us c = true.
Proof.
  unfold lower_us, lower_digit_us.
  intros [->| ->]%orb_true_iff; [done|]. by rewrite orb_true_r.
Qed.

Lemma matches_first P r s :
  matches (Seq (Class P) r) s → ∃ c s', s = String c s' ∧ P c = true.
Proof.
  intros (s1 & s2 & -> & (c & -> & Hc)%matches_class_inv & _)%matches_seq_inv.
  simpl. eauto.
Qed.

Lemma dotted_shape s :
  test dottedPattern s = true →
  (∃ c rest, s = String c rest ∧ lower_us c = true)
  ∧ all_chars dotted_char s = true
  ∧ (∃ c, last_char s = Some c ∧ lower_digit_us c = true).
Proof.
  intros Hm%test_matches.
  destruct (matches_first _ _ _ Hm) as (c & rest & -> & Hc).
  split; [eauto|]. split.
  - apply (matches_all_chars dotted_char dottedPattern); [|done].
    unfold dotted_char. simpl. repeat split; intros d Hd.
    + by rewrite (lower_us_digit d Hd).
    + by rewrite Hd.
    + by rewrite Hd, orb_true_r.
    + by rewrite Hd.
    + by rewrite Hd.
  - assert (ends_within lower_digit_us dottedPattern) as He.
    { simpl. repeat split; try done. intros _. apply lower_us_digit. }
    pose proof (matches_last_char _ _ _ He Hm) as Hl.
    destruct (last_char (String c rest)) as [d|] eqn:El; [by exists d|].
    by apply last_char_None in El.
Qed.

Lemma dashed_shape s :
  test dashedPattern s = true →
  (∃ c rest, s = String c rest ∧ lower_us c = true)
  ∧ all_chars dashed_char s = true
  ∧ (∃ c, last_char s = Some c ∧ lower_digit_us c = true).
Proof.
  intros Hm%test_matches.
  destruct (matches_first _ _ _ Hm) as (c & rest & -> & Hc).
  split; [eauto|]. split.
  - apply (matches_all_chars dashed_char dashedPattern); [|done].
    unfold dashed_char. simpl. repeat split; intros d Hd.
    + by rewrite (lower_us_digit d Hd).
    + by rewrite Hd.
    + by rewrite Hd, orb_true_r.
    + by rewrite (lower_us_digit d Hd).
    + by rewrite Hd.
  - assert (ends_within lower_digit_us dashedPattern) as He.
    { simpl. repeat split; try done; try (intros _; apply lower_us_digit). }
    pose proof (matches_last_char _ _ _ He Hm) as Hl.
    destruct (last_char (String c rest)) as [d|] eqn:El; [by exists d|].
    by apply last_char_None in El.
Qed.

(** X16: a value a validator accepts is never empty, starts with a
    lower-case letter or an underscore, ends with a lower-case letter, a
    digit or an underscore, and holds nothing but such characters and
    the separator: the dot for a group id or a package name, the dash
    for an artifact id. *)
Theorem accepted_identifier_shape (value : string) :
  (groupIdValidation value = None ∨ packageNameValidation value = None →
   (∃ c rest, value = String c rest ∧ lower_us c = true)
   ∧ all_chars dotted_char value = true
   ∧ (∃ c, last_char value = Some c ∧ lower_digit_us c = true))
  ∧ (artifactIdValidation value = None →
     (∃ c rest, value = String c rest ∧ lower_us c = true)
     ∧ all_chars dashed_char value = true
     ∧ (∃ c, last_char value = Some c ∧ lower_digit_us c = true)).
Proof.
  unfold groupIdValidation, packageNameValidation, artifactIdValidation.
  split.
  - intros H. apply dotted_shape.
    destruct (test dottedPattern value); [done|]. by destruct H.
  - intros H. apply dashed_shape.
    by destruct (test dashedPattern value).
Qed.

Lemma all_chars_impl P (Q : ascii → bool) s :
  (∀ c, P c = true → Q c = true) → all_chars P s = true → all_chars Q s = true.
Proof.
  intros HPQ. induction s as [|c s IH]; simpl; [done|].
  intros [Hc Hs]%andb_true_iff. by rewrite (HPQ c Hc), IH.
Qed.

Lemma star_single r s : matches r s → matches (Star r) s.
Proof.
  intros H. rewrite <- (append_nil_r s).
  apply matches_star_cons; [done | constructor].
Qed.

Lemma star_app r s1 s2 :
  matches (Star r) s1 → matches (Star r) s2 → matches (Star r) (s1 +:+ s2).
Proof.
  intros H1 H2. remember (Star r) as r' eqn:Er.
  induction H1 as [| | | | | |r0 t1 t2 Ht1 _ Ht2 IH]; try discriminate.
  - done.
  - injection Er as ->. rewrite append_assoc.
    apply matches_star_cons; [done|]. by apply IH.
Qed.

Lemma star_of_class P s : all_chars P s = true → matches (Star (Class P)) s.
Proof.
  induction s as [|c s IH]; [constructor|]. simpl.
  intros [Hc Hs]%andb_true_iff.
  apply (matches_star_cons (Class P) (String c "") s);
    [by constructor | by apply IH].
Qed.

Lemma star_starts P r s :
  matches (Star (Seq (Class P) r)) s →
  s = "" ∨ ∃ c s', s = String c s' ∧ P c = true.
Proof.
  destruct s as [|c s]; [by left|]. right.
  apply star_cons_inv in H as (s1 & s2 & -> & Hm & _).
  apply matches_first in Hm as (d & s' & [= <- <-] & Hd). eauto.
Qed.

Lemma dotted_not_dash c : dotted_char c = true → not_dash c = true.
Proof.
  unfold not_dash, is_char. destruct (Ascii.eqb_spec "-" c) as [<-|]; done.
Qed.

(** An artifact id without a dash is one segment. *)
Lemma dashed_plain a :
  test dashedPattern a = true → all_chars not_dash a = true →
  ∃ c rest, a = String c rest ∧ lower_us c = true
            ∧ all_chars lower_digit_us rest = true.
Proof.
  intros Hm%test_matches Hnd.
  apply matches_seq_inv in Hm
    as (s0 & s12 & -> & (c & -> & Hc)%matches_class_inv
        & (s1 & s2 & -> & H1 & H2)%matches_seq_inv).
  simpl in Hnd. apply andb_true_iff in Hnd as [_ Hnd].
  rewrite all_chars_append in Hnd. apply andb_true_iff in Hnd as [_ Hnd2].
  apply star_starts in H2 as [->|(d & s' & -> & Hd)].
  - exists c, s1. rewrite append_nil_r. simpl. split; [done|]. split; [done|].
    apply (matches_all_chars lower_digit_us (Star (Class lower_digit_us)));
      [intros x Hx; exact Hx | exact H1].
  - simpl in Hnd2. unfold not_dash in Hnd2. by rewrite Hd in Hnd2.
Qed.

(** X17: the package name made of an accepted group id, a dot and an
    accepted artifact id is accepted exactly when the artifact id holds
    no dash. *)
Theorem packageName_of_group_and_artifact (g a : string) :
  groupIdValidation g = None →
  artifactIdValidation a = None →
  (packageNameValidation (g +:+ "." +:+ a) = None
   ↔ all_chars not_dash a = true).
Proof.
  unfold groupIdValidation, artifactIdValidation, packageNameValidation.
  destruct (test dottedPattern g) eqn:Hg; [|discriminate].
  destruct (test dashedPattern a) eqn:Ha; [|discriminate].
  intros _ _. split.
  - destruct (test dottedPattern (g +:+ "." +:+ a)) eqn:Hp; [|discriminate].
    intros _. apply dotted_shape in Hp as (_ & Hall & _).
    rewrite all_chars_append in Hall. apply andb_true_iff in Hall as [_ Hall].
    simpl in Hall.
    apply (all_chars_impl dotted_char not_dash); [apply dotted_not_dash|].
    exact Hall.
  - intros Hnd.
    destruct (dashed_plain a Ha Hnd) as (c & rest & -> & Hc & Hrest).
    apply test_matches in Hg.
    apply matches_seq_inv in Hg
      as (s0 & s12 & -> & H0 & (s1 & s2 & -> & H1 & H2)%matches_seq_inv).
    assert (test dottedPattern
              (s0 +:+ s1 +:+ s2 +:+ "." +:+ String c rest) = true) as Ht.
    { apply test_matches. apply matches_seq; [done|].
      apply matches_seq; [done|]. apply star_app; [done|].
      apply star_single.
      apply (matches_seq _ _ "." (String c rest)); [by constructor|].
      apply (matches_seq _ _ (String c "") rest).
      - constructor. by apply lower_us_digit.
      - by apply star_of_class. }
    rewrite !append_assoc. by rewrite Ht.
Qed.

Lemma packageName_of_group_and_artifact_witness :
  packageNameValidation ("com.example" +:+ "." +:+ "demo") = None
  ↔ all_chars not_dash "demo" = true.
Proof.
  apply (packageName_of_group_and_artifact "com.example" "demo");
    reflexivity.
Defined.

End IdentifierShapes.


(** ** More on the pom.xml patcher *)

Section PatcherInsertions.
Import Xml.
#[local] Arguments String.append !_ _ / : simpl nomatch.

Implicit Types (host : Host) (doc : Document) (deps : list IArtifact)
  (boms : list IBom).

Lemma applyEdit_single doc (e : list TextEdit)
    (ch : gmap string (list TextEdit)) :
  applyEdit {| changes := Some (<[uri doc := e]> ch) |} doc
  = (Ok tt, fold_left applyTextEdit e doc).
Proof. unfold applyEdit, modify. simpl. by rewrite lookup_insert_eq. Qed.

Lemma updatePom_without_boms host deps doc projectNode :
  getNodesByTag host (text doc) XmlTagName.Project = [projectNode] →
  updatePom host deps [] doc
  = match findTag XmlTagName.Dependencies (children projectNode) with
    | Some dependenciesNode =>
        (Ok tt, inserted host doc dependenciesNode
                  (getTextLines (DependencyNodes deps false)
                     (editorIndent host)))
    | None =>
        (Ok tt, inserted host doc projectNode
                  (getTextLines (DependencyNodes deps true)
                     (editorIndent host)))
    end.
Proof.
  intros Hp. unfold updatePom.
  rewrite bind_run, getActiveProjectNode_run, Hp. rewrite bind_run.
  destruct (findTag XmlTagName.Dependencies (children projectNode));
    rewrite updateWorkspaceEdit_overwrites, bind_run; simpl;
    by rewrite applyEdit_single.
Qed.

Lemma substring_all s : substring 0 (String.length s) s = s.
Proof. induction s as [|c s IH]; simpl; [done | by rewrite IH]. Qed.

(** Cutting a text at an offset and gluing the parts returns the text. *)
Lemma substring_split s n :
  substring 0 n s +:+ substring n (String.length s - n) s = s.
Proof.
  revert n. induction s as [|c s IH]; intros [|n]; simpl.
  - done.
  - done.
  - by rewrite substring_all.
  - by rewrite IH.
Qed.

Lemma inserted_text host doc parentNode lines :
  ∃ pre post,
    text (inserted host doc parentNode lines)
    = pre +:+ blockText host doc parentNode lines +:+ post
    ∧ pre +:+ post = text doc
    ∧ uri (inserted host doc parentNode lines) = uri doc.
Proof.
  unfold inserted. rewrite applyTextEdit_insert.
  eexists _, _. split; [reflexivity|]. split; [apply substring_split|done].
Qed.

Lemma platformEol_length host : (1 ≤ String.length (platformEol host))%nat.
Proof.
  unfold platformEol. destruct (negb _); simpl; lia.
Qed.

Lemma blockText_length host doc parentNode lines :
  (1 ≤ String.length (blockText host doc parentNode lines))%nat.
Proof.
  unfold blockText. rewrite length_append.
  pose proof (platformEol_length host). lia.
Qed.

(** X19: on a document with one project element [updatePom] succeeds
    whatever the fragments, and only inserts: the new text is the old
    text with one block put in at one place, everything before and after
    it unchanged, under the same uri; the block is never empty, so the
    document grows even when there is no fragment to add. *)
Theorem updatePom_only_inserts host deps boms doc projectNode :
  getNodesByTag host (text doc) XmlTagName.Project = [projectNode] →
  ∃ pre block post,
    (updatePom host deps boms doc).1 = Ok tt
    ∧ uri (updatePom host deps boms doc).2 = uri doc
    ∧ text (updatePom host deps boms doc).2 = pre +:+ block +:+ post
    ∧ pre +:+ post = text doc
    ∧ block ≠ ""
    ∧ String.length (text (updatePom host deps boms doc).2)
      = (String.length (text doc) + String.length block)%nat.
Proof.
  intros Hp.
  assert (∃ parentNode lines,
            updatePom host deps boms doc
            = (Ok tt, inserted host doc parentNode lines))
    as (parentNode & lines & ->).
  { destruct boms as [|b boms].
    - rewrite (updatePom_without_boms host deps doc projectNode Hp).
      destruct (findTag _ _); eauto.
    - rewrite (updatePom_with_boms host deps (b :: boms) doc projectNode Hp)
        by done.
      destruct (findTag _ _) as [n|]; [|eauto].
      destruct (findTag _ (children n)); eauto. }
  destruct (inserted_text host doc parentNode lines)
    as (pre & post & Ht & Hs & Hu).
  exists pre, (blockText host doc parentNode lines), post. cbn [fst snd].
  split; [done|]. split; [done|]. split; [done|]. split; [done|].
  pose proof (blockText_length host doc parentNode lines) as Hl.
  split.
  - intros E. rewrite E in Hl. simpl in Hl. lia.
  - rewrite Ht, <- Hs, !length_append. lia.
Qed.

Lemma updatePom_only_inserts_witness :
  ∃ pre block post,
    (updatePom pomHost [] [] pom).1 = Ok tt
    ∧ uri (updatePom pomHost [] [] pom).2 = uri pom
    ∧ text (updatePom pomHost [] [] pom).2 = pre +:+ block +:+ post
    ∧ pre +:+ post = text pom
    ∧ block ≠ ""
    ∧ String.length (text (updatePom pomHost [] [] pom).2)
      = (String.length (text pom) + String.length block)%nat.
Proof.
  apply (updatePom_only_inserts pomHost [] [] pom pomProject). reflexivity.
Defined.

Lemma join_laid_out (sep : string) (x : string) (lines : list string) :
  join sep (x :: lines) = x +:+ fold_right (λ l acc, sep +:+ l +:+ acc) "" lines.
Proof.
  revert x. induction lines as [|y lines IH]; intros x.
  - simpl. by rewrite append_nil_r.
  - change (join sep (x :: y :: lines)) with (x +:+ sep +:+ join sep (y :: lines)).
    by rewrite IH.
Qed.

Lemma laid_out_append (sep eol : string) (lines : list string) :
  fold_right (λ l acc, sep +:+ l +:+ acc) "" lines +:+ eol
  = laid_out sep eol lines.
Proof.
  unfold laid_out. induction lines as [|y lines IH]; [done|].
  simpl. by rewrite !append_assoc, IH.
Qed.

Lemma leading_space_all_space s : all_space (leading_space s) = true.
Proof.
  induction s as [|c s IH]; [done|]. simpl.
  destruct (is_space c) eqn:Ec; [|done]. simpl. by rewrite Ec.
Qed.

Lemma repeat_space_all_space n : all_space (repeat_string " " n) = true.
Proof. induction n as [|n IH]; [done|]. simpl. exact IH. Qed.

End PatcherInsertions.


(** ** Where the block lands in the text *)

Section Placement.
Import Xml.
#[local] Arguments String.append !_ _ / : simpl nomatch.

Implicit Types (host : Host) (doc : Document) (deps : list IArtifact)
  (boms : list IBom) (node : Node).

Lemma substring_prefix (a b : string) :
  substring 0 (String.length a) (a +:+ b) = a.
Proof.
  induction a as [|c a IH]; simpl; [apply substring_empty | by rewrite IH].
Qed.

Lemma substring_skip (a b : string) (n k : nat) :
  substring (String.length a + n) k (a +:+ b) = substring n k b.
Proof. induction a as [|c a IH]; simpl; [done | exact IH]. Qed.

Lemma substring_middle (a b c : string) :
  substring (String.length a) (String.length b) (a +:+ b +:+ c) = b.
Proof.
  rewrite <- (Nat.add_0_r (String.length a)), substring_skip.
  apply substring_prefix.
Qed.

Lemma substring_rest (a b : string) :
  substring (String.length a)
    (String.length (a +:+ b) - String.length a) (a +:+ b) = b.
Proof.
  rewrite <- (Nat.add_0_r (String.length a)) at 1.
  rewrite substring_skip, length_append.
  replace (String.length a + String.length b - String.length a)%nat
    with (String.length b) by lia.
  apply substring_all.
Qed.

(** On its first line, up to the first line feed, a text counts
    columns. *)
Lemma positionAt_go_one_line (l t : string) :
  one_line l = true →
  positionAt_go (l +:+ t) (String.length l)
  = {| line := 0; character := String.length l |}.
Proof.
  induction l as [|c l IH]; simpl; [by destruct t|].
  intros [Hc Hl]%andb_true_iff. apply negb_true_iff in Hc.
  by rewrite Hc, IH.
Qed.

(** Past a line feed the column is the column in the rest. *)
Lemma positionAt_go_past_LF (h s : string) (n : nat) :
  line (positionAt_go (h +:+ String LF s) (String.length h + S n)) ≠ 0%nat
  ∧ character (positionAt_go (h +:+ String LF s) (String.length h + S n))
    = character (positionAt_go s n).
Proof.
  induction h as [|c h [IH1 IH2]]; simpl; [done|].
  destruct (is_LF c); simpl; [done|].
  split; [done|]. by destruct (line _).
Qed.

Lemma line_cut_column (head ws body tail : string) :
  line_cut head ws body →
  character (positionAt_go (head +:+ ws +:+ body +:+ tail)
               (String.length (head +:+ ws +:+ body)))
  = String.length (ws +:+ body).
Proof.
  intros ([->|(h & ->)] & _ & Hline & _).
  - simpl. rewrite <- append_assoc.
    by rewrite positionAt_go_one_line.
  - rewrite !append_assoc, length_append. simpl.
    rewrite <- (append_assoc ws body tail).
    destruct (positionAt_go_past_LF h ((ws +:+ body) +:+ tail)
                (String.length (ws +:+ body))) as [_ ->].
    by rewrite positionAt_go_one_line.
Qed.

(** The offsets and the line content [getIndentation] and
    [updateWorkspaceEdit] read at the column where a line is cut. *)
Lemma line_cut_offsets doc (head ws body tail : string) :
  line_cut head ws body →
  text doc = head +:+ ws +:+ body +:+ tail →
  let pos := positionAt doc (Z.of_nat (String.length (head +:+ ws +:+ body))) in
  offsetAt doc pos = String.length (head +:+ ws +:+ body)
  ∧ offsetAt doc (lineStart pos) = String.length head
  ∧ getText doc {| r_start := lineStart pos; r_end := pos |} = ws +:+ body.
Proof.
  intros Hcut Ht pos. subst pos.
  unfold getText, offsetAt, positionAt. simpl. rewrite Nat2Z.id, Ht.
  set (n := String.length (head +:+ ws +:+ body)).
  set (s := head +:+ ws +:+ body +:+ tail).
  assert (n ≤ String.length s)%nat as Hn.
  { subst n s. rewrite !length_append. lia. }
  pose proof (offsetAt_positionAt_go s n Hn) as H1.
  pose proof (offsetAt_lineStart_go s n Hn) as H2.
  pose proof (line_cut_column head ws body tail Hcut) as H3.
  fold n s in H3. rewrite H3 in H2. rewrite H1.
  assert (n = String.length head + String.length (ws +:+ body))%nat as En.
  { subst n. by rewrite length_append. }
  assert (offsetAt_go s (line (positionAt_go s n)) 0 = String.length head)
    as Ha by lia.
  rewrite Ha. split; [done|]. split; [done|].
  replace (n - String.length head)%nat with (String.length (ws +:+ body))
    by lia.
  subst s. rewrite <- (append_assoc ws body tail).
  apply substring_middle.
Qed.

Lemma leading_space_cut (ws body : string) :
  all_space ws = true →
  (∀ c rest, body = String c rest → is_space c = false) →
  leading_space (ws +:+ body) = ws.
Proof.
  intros Hws Hbody. induction ws as [|c ws IH]; simpl.
  - destruct body as [|c rest]; [done|]. simpl.
    by rewrite (Hbody c rest).
  - simpl in Hws. apply andb_true_iff in Hws as [Hc Hws].
    by rewrite Hc, IH.
Qed.

Lemma all_space_cut (ws body : string) :
  all_space ws = true →
  (∀ c rest, body = String c rest → is_space c = false) →
  all_space (ws +:+ body)
  = match body with EmptyString => true | _ => false end.
Proof.
  intros Hws Hbody. induction ws as [|c ws IH]; simpl.
  - destruct body as [|c rest]; [done|]. simpl.
    by rewrite (Hbody c rest).
  - simpl in Hws. apply andb_true_iff in Hws as [Hc Hws].
    by rewrite Hc, IH.
Qed.

(** The indentation is the white space the line of the element begins
    with. *)
Lemma getIndentation_opens doc node (head ws body : string) :
  opens doc node head ws body →
  getIndentation doc (startIndex node) = ws.
Proof.
  intros (Hcut & (tail & Ht) & ->). unfold getIndentation.
  destruct (line_cut_offsets doc head ws body tail Hcut Ht) as (_ & _ & ->).
  destruct Hcut as (_ & Hws & _ & Hbody). by apply leading_space_cut.
Qed.

Lemma closes_offset doc node (head ws body after : string) :
  closes doc node head ws body after →
  closingTagOffset node = Z.of_nat (String.length (head +:+ ws +:+ body)).
Proof. intros (_ & _ & He). unfold closingTagOffset. rewrite He. lia. Qed.

(** The insertion goes to the start of the line the offset taken for
    the closing tag lies on when only white space stands before it on
    that line, and to that offset otherwise. *)
Lemma inserted_at_cut host doc node lines (head ws body closing after : string) :
  line_cut head ws body →
  text doc = head +:+ ws +:+ body +:+ closing +:+ after →
  closingTagOffset node = Z.of_nat (String.length (head +:+ ws +:+ body)) →
  inserted host doc node lines
  = {| uri := uri doc;
       text := placed head ws body (blockText host doc node lines)
                 closing after |}.
Proof.
  intros Hcut Ht Ho.
  destruct (line_cut_offsets doc head ws body (closing +:+ after) Hcut Ht)
    as (Hpos & Hstart & Hcontent).
  unfold inserted, applyTextEdit, TextEdit_insert, insertPosition. simpl.
  rewrite Ho, Hcontent.
  destruct Hcut as (_ & Hws & _ & Hbody).
  rewrite (all_space_cut ws body Hws Hbody).
  f_equal. unfold placed. rewrite Ht.
  set (tail := closing +:+ after).
  destruct body as [|c rest].
  - rewrite Hstart. simpl.
    rewrite substring_prefix, substring_rest.
    by rewrite !append_assoc.
  - rewrite Hpos.
    rewrite <- !append_assoc, substring_prefix, substring_rest.
    by rewrite !append_assoc.
Qed.

Lemma inserted_closes host doc node lines (head ws body after : string) :
  closes doc node head ws body after →
  inserted host doc node lines
  = {| uri := uri doc;
       text := placed head ws body (blockText host doc node lines)
                 ("</" +:+ name node +:+ ">") after |}.
Proof.
  intros Hc. pose proof (closes_offset _ _ _ _ _ _ Hc) as Ho.
  destruct Hc as (Hcut & Ht & _).
  apply inserted_at_cut; [done| |done].
  rewrite Ht. by repeat (progress (rewrite ?append_assoc; simpl)).
Qed.

(** For an element written as one tag, the offset taken for the closing
    tag is the start of the element. *)
Lemma self_closed_offset doc node (head ws body after : string) :
  self_closed doc node head ws body after →
  closingTagOffset node = startIndex node.
Proof.
  intros (_ & _ & -> & He). unfold closingTagOffset. rewrite He. lia.
Qed.

Lemma inserted_self_closed host doc node lines (head ws body after : string) :
  self_closed doc node head ws body after →
  inserted host doc node lines
  = {| uri := uri doc;
       text := placed head ws body (blockText host doc node lines)
                 ("<" +:+ name node +:+ "/>") after |}.
Proof.
  intros Hc. pose proof (self_closed_offset _ _ _ _ _ _ Hc) as Ho.
  destruct Hc as (Hcut & Ht & Hs & _).
  apply inserted_at_cut; [done| |by rewrite Ho].
  rewrite Ht. by repeat (progress (rewrite ?append_assoc; simpl)).
Qed.

Lemma blockText_opens host doc node lines (head ws body : string) :
  opens doc node head ws body →
  blockText host doc node lines
  = laid_out (platformEol host +:+ ws +:+ editorIndent host)
      (platformEol host) lines.
Proof.
  intros Ho. unfold blockText. rewrite (getIndentation_opens _ _ _ _ _ Ho).
  rewrite join_laid_out. simpl. apply laid_out_append.
Qed.

Lemma findTag_lacks (tag : string) (nodes : list Node) :
  lacks tag nodes → findTag tag nodes = None.
Proof.
  unfold lacks, findTag. induction 1 as [|c nodes Hc _ IH]; [done|].
  simpl. destruct (isTag c) eqn:Et; [|done]. simpl.
  destruct (String.eqb_spec (name c) tag) as [E|E]; [|done].
  by destruct (Hc eq_refl).
Qed.

Lemma findTag_first (tag : string) (nodes : list Node) node :
  first_tag tag nodes node → findTag tag nodes = Some node.
Proof.
  intros (before & after & -> & Hlacks & Ht & Hn). unfold findTag.
  induction Hlacks as [|c before Hc _ IH]; simpl.
  - by rewrite Ht, Hn, String.eqb_refl.
  - destruct (isTag c) eqn:Et; [|done]. simpl.
    destruct (String.eqb_spec (name c) tag) as [E|E]; [|done].
    by destruct (Hc eq_refl).
Qed.

(** X18: without bom fragments, the dependency fragments go, bare,
    before the closing tag of the first dependencies child of the
    project; when the project has no such child they go, inside a new
    dependencies block, before the closing tag of the project. The
    block starts each of its lines on a line of its own, indented one
    unit more than the line the target element starts on, and goes to
    the start of the line of the closing tag when only white space
    stands before the tag. This is for a target element written with a
    closing tag. *)
Theorem updatePom_dependencies_placement host deps doc projectNode
    (target : Node) (lines : list string)
    (ohead ows obody head ws body after : string) :
  getNodesByTag host (text doc) XmlTagName.Project = [projectNode] →
  let indent := editorIndent host in
  let eol := platformEol host in
  let bare := flat_map (λ a, toTextLine a indent) deps in
  (first_tag "dependencies" (children projectNode) target ∧ lines = bare)
  ∨ (lacks "dependencies" (children projectNode) ∧ target = projectNode
     ∧ lines = ["<dependencies>"] ++ map (λ l, indent +:+ l) bare
               ++ ["</dependencies>"]) →
  opens doc target ohead ows obody →
  closes doc target head ws body after →
  updatePom host deps [] doc
  = (Ok tt,
     {| uri := uri doc;
        text := placed head ws body
                  (laid_out (eol +:+ ows +:+ indent) eol lines)
                  ("</" +:+ name target +:+ ">") after |}).
Proof.
  intros Hp indent eol bare Hcase Ho Hc.
  rewrite (updatePom_without_boms host deps doc projectNode Hp).
  unfold XmlTagName.Dependencies.
  destruct Hcase as [[Hfirst ->]|(Hlacks & -> & ->)].
  - rewrite (findTag_first _ _ _ Hfirst).
    rewrite (inserted_closes _ _ _ _ _ _ _ _ Hc).
    by rewrite (blockText_opens _ _ _ _ _ _ _ Ho).
  - rewrite (findTag_lacks _ _ Hlacks).
    rewrite (inserted_closes _ _ _ _ _ _ _ _ Hc).
    by rewrite (blockText_opens _ _ _ _ _ _ _ Ho).
Qed.

(** X23: with bom fragments, the text inserted is the bom block alone,
    at one of three depths: bare before the closing tag of the first
    dependencies child of the first dependencyManagement child of the
    project; inside a dependencies block before the closing tag of that
    dependencyManagement child when it has no dependencies child;
    inside a dependencies block inside a dependencyManagement block
    before the closing tag of the project when it has no
    dependencyManagement child. Each wrapper indents what it holds by
    one unit. This is for a target element written with a closing
    tag. *)
Theorem updatePom_bom_placement host deps boms doc projectNode
    (target : Node) (lines : list string)
    (ohead ows obody head ws body after : string) :
  getNodesByTag host (text doc) XmlTagName.Project = [projectNode] →
  boms ≠ [] →
  let indent := editorIndent host in
  let eol := platformEol host in
  let bare := flat_map (λ b, bomToTextLine b indent) boms in
  (∃ depMgmtNode,
     first_tag "dependencyManagement" (children projectNode) depMgmtNode
     ∧ first_tag "dependencies" (children depMgmtNode) target
     ∧ lines = bare)
  ∨ (first_tag "dependencyManagement" (children projectNode) target
     ∧ lacks "dependencies" (children target)
     ∧ lines = ["<dependencies>"] ++ map (λ l, indent +:+ l) bare
               ++ ["</dependencies>"])
  ∨ (lacks "dependencyManagement" (children projectNode)
     ∧ target = projectNode
     ∧ lines = ["<dependencyManagement>"; indent +:+ "<dependencies>"]
               ++ map (λ l, indent +:+ indent +:+ l) bare
               ++ [indent +:+ "</dependencies>"; "</dependencyManagement>"]) →
  opens doc target ohead ows obody →
  closes doc target head ws body after →
  updatePom host deps boms doc
  = (Ok tt,
     {| uri := uri doc;
        text := placed head ws body
                  (laid_out (eol +:+ ows +:+ indent) eol lines)
                  ("</" +:+ name target +:+ ">") after |}).
Proof.
  intros Hp Hb indent eol bare Hcase Ho Hc.
  rewrite (updatePom_with_boms host deps boms doc projectNode Hp Hb).
  unfold XmlTagName.Dependencies, XmlTagName.DependencyManagement.
  destruct Hcase as [(mgmt & Hm & Hd & ->)|[(Hm & Hd & ->)|(Hm & -> & ->)]].
  - rewrite (findTag_first _ _ _ Hm), (findTag_first _ _ _ Hd).
    rewrite (inserted_closes _ _ _ _ _ _ _ _ Hc).
    by rewrite (blockText_opens _ _ _ _ _ _ _ Ho).
  - rewrite (findTag_first _ _ _ Hm), (findTag_lacks _ _ Hd).
    rewrite (inserted_closes _ _ _ _ _ _ _ _ Hc).
    by rewrite (blockText_opens _ _ _ _ _ _ _ Ho).
  - rewrite (findTag_lacks _ _ Hm).
    rewrite (inserted_closes _ _ _ _ _ _ _ _ Hc).
    rewrite (blockText_opens _ _ _ _ _ _ _ Ho).
    assert (getTextLines
              (BOMNodes boms (Some ["dependencies"; "dependencyManagement"]))
              (editorIndent host)
            = ["<dependencyManagement>"; indent +:+ "<dependencies>"]
              ++ map (λ l, indent +:+ indent +:+ l) bare
              ++ [indent +:+ "</dependencies>"; "</dependencyManagement>"])
      as ->; [|done].
    subst bare indent. unfold getTextLines. cbn [fold_left].
    unfold wrapWithParentNode. rewrite !map_app, map_map.
    simpl. by rewrite <- !app_assoc.
Qed.

(** X20: [getIndentation] at the start of an element gives the white
    space the line of the element begins with, whatever else stands
    between that white space and the element; and the text
    [updateWorkspaceEdit] hands to the edit is, for each line of the
    node in turn, the line ending, that white space, one indentation
    unit and the line, followed by a last line ending. The edit holds
    that one insertion under the uri of the document, which is left as
    it is. *)
Theorem updateWorkspaceEdit_block host edit node nodeToInsert doc
    (head ws body : string) :
  opens doc node head ws body →
  getIndentation doc (startIndex node) = ws
  ∧ ∃ pos,
      updateWorkspaceEdit host edit node nodeToInsert doc
      = (Ok {| changes :=
                 Some (<[uri doc :=
                         [TextEdit_insert pos
                            (laid_out
                               (platformEol host +:+ ws +:+ editorIndent host)
                               (platformEol host)
                               (getTextLines nodeToInsert
                                  (editorIndent host)))]]>
                         (default ∅ (changes edit))) |},
         doc).
Proof.
  intros Ho. split; [by apply (getIndentation_opens _ _ head ws body)|].
  exists (insertPosition doc node).
  rewrite updateWorkspaceEdit_overwrites.
  by rewrite (blockText_opens _ _ _ _ _ _ _ Ho).
Qed.

(** X24: when the first dependencies child of the project is written
    as one tag closed by a slash, the dependency fragments are put
    before that element, at the start of its line when only white space
    stands before it there: they end up beside the element, as children
    of the project, and not inside it. *)
Theorem updatePom_dependencies_self_closed host deps doc projectNode
    (target : Node) (head ws body after : string) :
  getNodesByTag host (text doc) XmlTagName.Project = [projectNode] →
  first_tag "dependencies" (children projectNode) target →
  self_closed doc target head ws body after →
  let indent := editorIndent host in
  let eol := platformEol host in
  updatePom host deps [] doc
  = (Ok tt,
     {| uri := uri doc;
        text := placed head ws body
                  (laid_out (eol +:+ ws +:+ indent) eol
                     (flat_map (λ a, toTextLine a indent) deps))
                  ("<" +:+ name target +:+ "/>") after |}).
Proof.
  intros Hp Hfirst Hs indent eol.
  rewrite (updatePom_without_boms host deps doc projectNode Hp).
  unfold XmlTagName.Dependencies.
  rewrite (findTag_first _ _ _ Hfirst).
  rewrite (inserted_self_closed _ _ _ _ _ _ _ _ Hs).
  assert (opens doc target head ws body) as Ho.
  { destruct Hs as (Hcut & Ht & Hstart & _).
    split; [done|]. split; [by eexists|done]. }
  by rewrite (blockText_opens _ _ _ _ _ _ _ Ho).
Qed.

(** C8: on a pom whose dependencyManagement element holds a
    dependencies element written without a closing tag, case (a)
    applies, and the bom block is put before that element, at the start
    of its line: the bom ends up a child of dependencyManagement, beside
    the dependencies element and not inside it. The offset taken for
    the closing tag, the length of a closing tag before the end of the
    element, is the start of the element itself. *)
Theorem updatePom_bom_self_closing :
  getNodesByTag emptyManagedHost (text emptyManaged) XmlTagName.Project
  = [emptyManagedProject]
  ∧ findTag XmlTagName.DependencyManagement (children emptyManagedProject)
    = Some emptyManagedMgmt
  ∧ findTag XmlTagName.Dependencies (children emptyManagedMgmt)
    = Some emptyManagedInner
  ∧ substring 39 15 (text emptyManaged) = "<dependencies/>"
  ∧ closingTagOffset emptyManagedInner = startIndex emptyManagedInner
  ∧ updatePom emptyManagedHost [] [cloudBom] emptyManaged
    = (Ok tt,
       {| uri := "file:///demo/pom.xml";
          text :=
            "<project>" +:+ EOL_LF
            +:+ "  <dependencyManagement>" +:+ EOL_LF
            +:+ laid_out (EOL_LF +:+ "      ") EOL_LF
                  ["<dependency>";
                   "  <groupId>org.springframework.cloud</groupId>";
                   "  <artifactId>spring-cloud-dependencies</artifactId>";
                   "  <version>2023.0.0</version>";
                   "  <type>pom</type>";
                   "  <scope>import</scope>";
                   "</dependency>"]
            +:+ "    <dependencies/>" +:+ EOL_LF
            +:+ "  </dependencyManagement>" +:+ EOL_LF
            +:+ "</project>" |})
  ∧ (∃ i j,
       String.index 0 "<dependency>"
         (text (updatePom emptyManagedHost [] [cloudBom] emptyManaged).2)
       = Some i
       ∧ String.index 0 "<dependencies/>"
           (text (updatePom emptyManagedHost [] [cloudBom] emptyManaged).2)
         = Some j
       ∧ (i < j)%nat).
Proof.
  repeat split; try (vm_compute; reflexivity).
  eexists _, _. split; [vm_compute; reflexivity|].
  split; [vm_compute; reflexivity|]. vm_compute. lia.
Qed.

Lemma updatePom_dependencies_placement_witness :
  updatePom prettyHost [starterWeb] [] pretty
  = (Ok tt,
     {| uri := "file:///demo/pom.xml";
        text :=
          "<project>" +:+ EOL_LF
          +:+ "  <dependencies>" +:+ EOL_LF
          +:+ laid_out (EOL_LF +:+ "    ") EOL_LF
                ["<dependency>";
                 "  <groupId>org.springframework.boot</groupId>";
                 "  <artifactId>spring-boot-starter-web</artifactId>";
                 "</dependency>"]
          +:+ "  </dependencies>" +:+ EOL_LF
          +:+ "</project>" |}).
Proof.
  rewrite (updatePom_dependencies_placement prettyHost [starterWeb] pretty
             prettyProject prettyDependencies
             (flat_map (λ a, toTextLine a "  ") [starterWeb])
             ("<project>" +:+ EOL_LF) "  " ""
             ("<project>" +:+ EOL_LF +:+ "  <dependencies>" +:+ EOL_LF)
             "  " "" (EOL_LF +:+ "</project>")).
  - vm_compute. reflexivity.
  - reflexivity.
  - left. split; [|reflexivity]. exists [], [].
    split; [reflexivity|]. split; [constructor|]. by split.
  - split; [|split; [by eexists|reflexivity]].
    split; [right; by eexists|]. split; [reflexivity|].
    split; [reflexivity|]. intros c rest [=].
  - split; [|split; reflexivity].
    split; [right; by exists ("<project>" +:+ EOL_LF +:+ "  <dependencies>")|].
    split; [reflexivity|]. split; [reflexivity|]. intros c rest [=].
Defined.

Lemma updatePom_dependencies_self_closed_witness :
  updatePom emptyHost [starterWeb] [] empty
  = (Ok tt,
     {| uri := "file:///demo/pom.xml";
        text :=
          "<project>" +:+ EOL_LF
          +:+ laid_out (EOL_LF +:+ "    ") EOL_LF
                ["<dependency>";
                 "  <groupId>org.springframework.boot</groupId>";
                 "  <artifactId>spring-boot-starter-web</artifactId>";
                 "</dependency>"]
          +:+ "  <dependencies/>" +:+ EOL_LF
          +:+ "</project>" |}).
Proof.
  rewrite (updatePom_dependencies_self_closed emptyHost [starterWeb] empty
             emptyProject emptyDependencies
             ("<project>" +:+ EOL_LF) "  " "" (EOL_LF +:+ "</project>")).
  - vm_compute. reflexivity.
  - reflexivity.
  - exists [], [].
    split; [reflexivity|]. split; [constructor|]. by split.
  - split; [|split; [reflexivity|split; reflexivity]].
    split; [right; by exists "<project>"|]. split; [reflexivity|].
    split; [reflexivity|]. intros c rest [=].
Defined.

Lemma updatePom_bom_placement_witness :
  updatePom prettyHost [starterWeb] [cloudBom] pretty
  = (Ok tt,
     {| uri := "file:///demo/pom.xml";
        text :=
          "<project>" +:+ EOL_LF
          +:+ "  <dependencies>" +:+ EOL_LF
          +:+ "  </dependencies>" +:+ EOL_LF
          +:+ laid_out (EOL_LF +:+ "  ") EOL_LF
                ["<dependencyManagement>";
                 "  <dependencies>";
                 "    <dependency>";
                 "      <groupId>org.springframework.cloud</groupId>";
                 "      <artifactId>spring-cloud-dependencies</artifactId>";
                 "      <version>2023.0.0</version>";
                 "      <type>pom</type>";
                 "      <scope>import</scope>";
                 "    </dependency>";
                 "  </dependencies>";
                 "</dependencyManagement>"]
          +:+ "</project>" |}).
Proof.
  rewrite (updatePom_bom_placement prettyHost [starterWeb] [cloudBom] pretty
             prettyProject prettyProject
             (["<dependencyManagement>"; "  " +:+ "<dependencies>"]
              ++ map (λ l, "  " +:+ "  " +:+ l)
                   (flat_map (λ b, bomToTextLine b "  ") [cloudBom])
              ++ ["  " +:+ "</dependencies>"; "</dependencyManagement>"])
             "" "" ""
             ("<project>" +:+ EOL_LF +:+ "  <dependencies>" +:+ EOL_LF
              +:+ "  </dependencies>" +:+ EOL_LF)
             "" "" "").
  - vm_compute. reflexivity.
  - reflexivity.
  - discriminate.
  - right. right. split; [|by split].
    repeat constructor. simpl. discriminate.
  - split; [|split; [by eexists|reflexivity]].
    split; [by left|]. split; [reflexivity|].
    split; [reflexivity|]. intros c rest [=].
  - split; [|split; reflexivity].
    split.
    { right. by exists ("<project>" +:+ EOL_LF +:+ "  <dependencies>"
                        +:+ EOL_LF +:+ "  </dependencies>"). }
    split; [reflexivity|]. split; [reflexivity|]. intros c rest [=].
Defined.

Lemma updateWorkspaceEdit_block_witness :
  getIndentation pretty (startIndex prettyDependencies) = "  "
  ∧ ∃ pos,
      updateWorkspaceEdit prettyHost {| changes := Some ∅ |}
        prettyDependencies (DependencyNodes [starterWeb] false) pretty
      = (Ok {| changes :=
                 Some (<[uri pretty :=
                         [TextEdit_insert pos
                            (laid_out
                               (platformEol prettyHost +:+ "  "
                                +:+ editorIndent prettyHost)
                               (platformEol prettyHost)
                               (getTextLines
                                  (DependencyNodes [starterWeb] false)
                                  (editorIndent prettyHost)))]]>
                         (default ∅ (Some ∅))) |},
         pretty).
Proof.
  apply (updateWorkspaceEdit_block prettyHost {| changes := Some ∅ |}
           prettyDependencies (DependencyNodes [starterWeb] false) pretty
           ("<project>" +:+ EOL_LF) "  " "").
  split; [|split; [by eexists|reflexivity]].
  split; [right; by eexists|]. split; [reflexivity|].
  split; [reflexivity|]. intros c rest [=].
Defined.

End Placement.


(** ** The selection prompts on sample runs *)

Section Runs.
Import DependencyManager DependencyHistory.

Lemma lastUsed_of_selection_witness :
  genLastSelectedItem (item_id (selectionItem ["web"; "data-jpa"]))
    (initialize catalog None (create "3.2.0"))
  = Some {| description := Some "Spring Web, Spring Data JPA";
            item_id := "web,data-jpa";
            itemType := "lastUsed";
            label := "$(clock) Last used" |}.
Proof.
  apply (lastUsed_of_selection (initialize catalog None (create "3.2.0"))
           ["web"; "data-jpa"]).
  - discriminate.
  - repeat constructor.
  - repeat constructor; eexists; vm_compute; reflexivity.
Defined.

Lemma lastUsed_known_ids_witness :
  genLastSelectedItem "web,gone,data-jpa"
    (initialize catalog None (create "3.2.0"))
  ≠ None
  ∧ (∀ item,
       genLastSelectedItem "web,gone,data-jpa"
         (initialize catalog None (create "3.2.0")) = Some item →
       split_comma (item_id item) = ["web"; "data-jpa"]).
Proof.
  destruct (lastUsed_known_ids (initialize catalog None (create "3.2.0"))
              "web,gone,data-jpa") as [Hnone Hsome].
  - apply (bool_decide_unpack _). vm_compute. exact I.
  - vm_compute. reflexivity.
  - split.
    + intros H.
      assert ("web" ∈ split_comma "web,gone,data-jpa") as Hin
        by (apply (bool_decide_unpack _); vm_compute; exact I).
      pose proof (proj1 Hnone H "web" Hin) as Hweb.
      vm_compute in Hweb. discriminate Hweb.
    + intros item Hitem. destruct (Hsome item Hitem) as (_ & -> & _).
      vm_compute. reflexivity.
Defined.

Lemma every_entry_shown_once_witness :
  let shown :=
    dependencyItems
      (getQuickPickItems catalog None (Some true)
         (set_selectedIds ["jdbc"; "gone"] (create "3.2.0"))).1 in
  (∀ dep, dep ∈ omap (λ d, d) catalog →
     length (filter (λ it, item_id it = id dep) shown) = 1%nat)
  ∧ (Forall (λ x, x ∉ inherited ∨ x ∈ map id (omap (λ d, d) catalog))
       ["jdbc"; "gone"] →
     "__proto__" ∉ map id (omap (λ d, d) catalog) →
     map item_id shown ≡ₚ map id (omap (λ d, d) catalog)).
Proof.
  apply (every_entry_shown_once catalog None (Some true) "3.2.0"
           ["jdbc"; "gone"]).
  - apply (bool_decide_unpack _). vm_compute. exact I.
  - repeat constructor; discriminate.
  - apply (bool_decide_unpack _). vm_compute. exact I.
Defined.

Lemma chooseStarters_adds_new_witness :
  Some "Proceed" = Some "Proceed"
  ∧ ["data-jpa"] ≠ []
  ∧ NoDup ["data-jpa"]
  ∧ (∀ x, x ∈ ["data-jpa"] →
       (x ∉ ["web"]) ∧ x ≠ "" ∧ ∃ dep, Some dep ∈ catalog ∧ id dep = x)
  ∧ selectedIds
      (AddStarters.pickLoop ["web"] catalog None
         [Some 3%nat; Some 2%nat; Some 0%nat]
         (set_selectedIds ["web"] (create "3.2.0"))).2
    = ["web"] ++ ["data-jpa"].
Proof.
  apply (chooseStarters_adds_new "3.2.0" ["web"] catalog None
           [Some 3%nat; Some 2%nat; Some 0%nat] (Some "Proceed") ["data-jpa"]).
  vm_compute. reflexivity.
Defined.

(** The entry without an id is picked among the additions. *)
Lemma chooseStarters_fails_on_empty_id_witness :
  AddStarters.chooseStarters "3.2.0" ["web"] (catalog ++ [Some blank]) None
    [Some 5%nat; Some 0%nat] (Some "Proceed") = AddStarters.Failed
  ∧ ∃ dep, Some dep ∈ catalog ++ [Some blank] ∧ id dep = "".
Proof.
  destruct (chooseStarters_fails_on_empty_id "3.2.0" ["web"]
              (catalog ++ [Some blank]) None [Some 5%nat; Some 0%nat]
              (Some "Proceed")) as [Hiff Hdep].
  assert (AddStarters.chooseStarters "3.2.0" ["web"] (catalog ++ [Some blank])
            None [Some 5%nat; Some 0%nat] (Some "Proceed")
          = AddStarters.Failed) as E.
  { apply Hiff. split; [|split].
    - eexists. vm_compute. reflexivity.
    - apply (bool_decide_unpack _). vm_compute. exact I.
    - apply (bool_decide_unpack _). vm_compute. exact I. }
  split; [exact E | exact (Hdep E)].
Defined.

Lemma dependencies_dismissed_goes_back_witness :
  ∃ d,
    DependenciesStep.execute installed catalog [Some 2%nat; None]
      (beforeDependencies None)
    = (Ok (last [Wizard.SpecifyBootVersionStep; Wizard.SpecifyJavaVersionStep]),
       {| DependenciesStep.wizard :=
            popped (with_dependencies d
                      (DependenciesStep.wizard (beforeDependencies None)));
          DependenciesStep.dependencies := None;
          DependenciesStep.files := ∅ |})
    ∧ (Wizard.d_dependencies
         (Wizard.defaults
            (Wizard.metadata
               (DependenciesStep.wizard (beforeDependencies None)))) = None →
       with_dependencies d (DependenciesStep.wizard (beforeDependencies None))
       = DependenciesStep.wizard (beforeDependencies None)).
Proof.
  apply (dependencies_dismissed_goes_back installed catalog
           [Some 2%nat; None] (beforeDependencies None)).
  vm_compute. reflexivity.
Defined.

Lemma dependencies_chosen_ends_wizard_witness :
  ∃ current,
    (DependenciesStep.execute installed catalog [Some 2%nat; Some 0%nat]
       (beforeDependencies None)).1 = Ok None
    ∧ DependenciesStep.dependencies
        (DependenciesStep.execute installed catalog [Some 2%nat; Some 0%nat]
           (beforeDependencies None)).2 = Some current
    ∧ itemType current ≠ "dependency"
    ∧ Wizard.pickSteps
        (Wizard.metadata
           (DependenciesStep.wizard
              (DependenciesStep.execute installed catalog
                 [Some 2%nat; Some 0%nat] (beforeDependencies None)).2))
      = Wizard.pickSteps
          (Wizard.metadata
             (DependenciesStep.wizard (beforeDependencies None)))
    ∧ (∀ root, Storage.extensionPath installed = Some root → root ≠ "" →
         history installed
           (DependenciesStep.files
              (DependenciesStep.execute installed catalog
                 [Some 2%nat; Some 0%nat] (beforeDependencies None)).2)
         = Some (item_id current)).
Proof.
  apply (dependencies_chosen_ends_wizard installed catalog
           [Some 2%nat; Some 0%nat] (beforeDependencies None)).
  vm_compute. reflexivity.
Defined.

Lemma defaults_array_written_through_witness :
  (DependenciesStep.execute installed catalog [Some 3%nat]
     (beforeDependencies (Some ["web"]))).1
  = Ok (Some Wizard.SpecifyJavaVersionStep)
  ∧ Wizard.d_dependencies
      (Wizard.defaults
         (Wizard.metadata
            (DependenciesStep.wizard
               (DependenciesStep.execute installed catalog [Some 3%nat]
                  (beforeDependencies (Some ["web"]))).2)))
    = Some ["web"; "data-jpa"].
Proof.
  apply (defaults_array_written_through installed catalog ["web"] 3
           (unselectedItem jpa) (beforeDependencies (Some ["web"]))).
  - reflexivity.
  - vm_compute. reflexivity.
  - reflexivity.
  - intros [=]%list_elem_of_singleton.
Defined.

End Runs.
